(** * jetton_sender: a shallow embedding of [src/jetton_sender.py]

    The script resolves a jetton and a source wallet through a TON Center
    gateway, checks that the wallet is active and then sends a fixed amount
    of the jetton to every destination address, one after the other.  Every
    gateway call is wrapped by a [tenacity] retry decorator.

    The embedding threads an explicit world through the code: the world
    records, in order, every observable effect (gateway calls, log records,
    sleeps) and counts the calls made to each gateway method.  The gateway
    itself is an oracle that answers the k-th call of each method; Python
    exceptions are values of [exn] carried by the [Raised] outcome. *)

From Stdlib Require Import ZArith List String Bool Lia PrimFloat.
Import ListNotations.
Local Open Scope string_scope.
Local Open Scope Z_scope.

(** ** Exceptions *)

(** An exception raised by a library carries the names of the classes on its
    method resolution order, so that [isinstance] is a membership test and
    no class hierarchy of [TonTools] has to be assumed.  [RetryError] is the
    error [tenacity] raises when it gives up without [reraise]; [SystemExit]
    is what the builtin [exit] raises. *)
Inductive exn : Type :=
| PyExc (mro : list string) (msg : string)
| RetryError (last_attempt : exn)
| SystemExit (code : Z).

Definition isinstance (e : exn) (cls : string) : bool :=
  match e with
  | PyExc mro _ => existsb (String.eqb cls) mro
  | RetryError _ =>
      existsb (String.eqb cls) ["RetryError"; "Exception"; "BaseException"]
  | SystemExit _ =>
      existsb (String.eqb cls) ["SystemExit"; "BaseException"]
  end.

Definition TonCenterClientError : string := "TonCenterClientError".
Definition GetMethodError : string := "GetMethodError".

(** ** Data *)

(** [class WalletState(str, Enum)]: the members are strings. *)
Module WalletState.
Definition active : string := "active".
Definition inactive : string := "inactive".
Definition notinit : string := "notinit".
End WalletState.

Record Jetton : Type := mkJetton {
  address : string;
  jetton_data : option string
}.

Record Wallet : Type := mkWallet {
  mnemonics : list string;
  version : string
}.

(** The values [setup] reads from the command line. *)
Record Namespace : Type := mkNamespace {
  api_key : string;
  jetton_address : string;
  jetton_send_amount : Z;
  jetton_send_fee : float;
  jetton_send_sleep : Z;
  source_wallet_version : string
}.

(** The four integers the decorators read from the environment. *)
Record RetryEnv : Type := mkRetryEnv {
  RETRIEVE_RETRY_ATTEMPTS : Z;
  RETRIEVE_RETRY_WAIT : Z;
  SEND_RETRY_ATTEMPTS : Z;
  SEND_RETRY_WAIT : Z
}.

(** ** Observable effects *)

Inductive log_record : Type :=
| JettonInfo (jetton : Jetton)
| SourceWalletState (state : string)
| JettonSent (destination_wallet : string) (api_response_code : Z)
| GetMethodErrorFor (destination_wallet : string) (gme : exn)
| CannotSend (destination_wallet : string) (exc : exn)
| CannotGetJettonOrWallet
| SourceWalletNotActive (source_wallet : Wallet)
| FinishedCall (attempt_number : Z).

Inductive event : Type :=
| CallJettonUpdate (jetton_address : string)
| CallGetState (wallet : Wallet)
| CallTransferJetton (source_wallet : Wallet)
    (destination_address jetton_master_address : string)
    (jettons_amount : Z) (fee : float)
| LogInfo (r : log_record)
| LogError (r : log_record)
| RetryWait (seconds : Z)
| Sleep (seconds : Z).

(** The world: the events so far, newest first, and the number of calls
    each gateway method has received. *)
Record World : Type := mkWorld {
  events : list event;
  n_update : nat;
  n_get_state : nat;
  n_transfer : nat
}.

Definition world0 : World := mkWorld [] 0 0 0.

Definition emit (ev : event) (w : World) : World :=
  mkWorld (ev :: events w) (n_update w) (n_get_state w) (n_transfer w).

Definition is_transfer (ev : event) : bool :=
  match ev with CallTransferJetton _ _ _ _ _ => true | _ => false end.

Definition is_sleep (ev : event) : bool :=
  match ev with Sleep _ => true | _ => false end.

Definition count (p : event -> bool) (w : World) : nat :=
  List.length (filter p (events w)).

(** ** The gateway *)

Inductive response (A : Type) : Type :=
| Reply (v : A)
| Fault (e : exn).
Arguments Reply {A} v.
Arguments Fault {A} e.

(** What the script meets outside itself.  The three methods of
    [TonTools]: each is given the number of calls it received before this
    one, and the arguments of the call.  And the operating system under
    [time.sleep]: whether it refuses a length, given the number of delays
    that elapsed before (the deadline it is asked for moves with the
    clock). *)
Record Gateway : Type := mkGateway {
  jetton_update : nat -> string -> response string;
  wallet_get_state : nat -> Wallet -> response string;
  wallet_transfer_jetton :
    nat -> Wallet -> string -> string -> Z -> float -> response Z;
  sleep_refused : nat -> Z -> bool
}.

(** ** Computations *)

Inductive outcome (A : Type) : Type :=
| Returned (v : A)
| Raised (e : exn).
Arguments Returned {A} v.
Arguments Raised {A} e.

(** A computation runs in a world and yields an outcome and the next world;
    [None] only when a bounded loop is given too little fuel. *)
Definition M (A : Type) : Type := World -> option (outcome A * World).

Definition ret {A} (v : A) : M A := fun w => Some (Returned v, w).

Definition raise {A} (e : exn) : M A := fun w => Some (Raised e, w).

Definition bind {A B} (m : M A) (k : A -> M B) : M B :=
  fun w =>
    match m w with
    | Some (Returned v, w1) => k v w1
    | Some (Raised e, w1) => Some (Raised e, w1)
    | None => None
    end.

(** [try: m except BaseException as exc: h exc]. *)
Definition try_except {A} (m : M A) (h : exn -> M A) : M A :=
  fun w =>
    match m w with
    | Some (Returned v, w1) => Some (Returned v, w1)
    | Some (Raised e, w1) => h e w1
    | None => None
    end.

Declare Scope py_scope.
Delimit Scope py_scope with py.
Notation "x <- m ;; k" := (bind m (fun x => k))
  (at level 61, m at next level, right associativity) : py_scope.
Notation "m ;; k" := (bind m (fun _ => k))
  (at level 61, right associativity) : py_scope.
Local Open Scope py_scope.

Definition tell (ev : event) : M unit := fun w => Some (Returned tt, emit ev w).

Definition logger_info (r : log_record) : M unit := tell (LogInfo r).
Definition logger_error (r : log_record) : M unit := tell (LogError r).
(** [logger.exception] logs at level ERROR. *)
Definition logger_exception (r : log_record) : M unit := tell (LogError r).

(** [exit(code)] raises [SystemExit]. *)
Definition exit {A} (code : Z) : M A := raise (SystemExit code).

Definition ValueError (msg : string) : exn :=
  PyExc ["ValueError"; "Exception"; "BaseException"] msg.

Definition OverflowError (msg : string) : exn :=
  PyExc ["OverflowError"; "ArithmeticError"; "Exception"; "BaseException"] msg.

Definition OSError (msg : string) : exn :=
  PyExc ["OSError"; "Exception"; "BaseException"] msg.

(** The largest number of seconds whose nanoseconds fit the 64-bit
    timestamp of CPython. *)
Definition sleep_limit : Z := 9223372036.

(** The lengths [time.sleep] refuses before it asks the operating system:
    one whose nanoseconds overflow, in either direction, with an
    [OverflowError]; then a negative one with a [ValueError]. *)
Definition refused_length (seconds : Z) : option exn :=
  if (seconds <? - sleep_limit) || (sleep_limit <? seconds) then
    Some (OverflowError "timestamp too large to convert to C _PyTime_t")
  else if seconds <? 0 then
    Some (ValueError "sleep length must be non-negative")
  else None.

(** [time.sleep(seconds)]: a length that passes [refused_length] is handed
    to the operating system, which sleeps or refuses it with an
    [OSError]. *)
Definition sleep (gw : Gateway) (seconds : Z) : M unit :=
  fun w =>
    match refused_length seconds with
    | Some exc => raise exc w
    | None =>
        if sleep_refused gw (count is_sleep w) seconds then
          raise (OSError "[Errno 22] Invalid argument") w
        else tell (Sleep seconds) w
    end.

Definition of_response {A} (r : response A) : outcome A :=
  match r with
  | Reply v => Returned v
  | Fault e => Raised e
  end.

Section Program.

Variable gw : Gateway.
Variable env : RetryEnv.

(** *** Gateway calls *)

Definition Jetton_update (j : Jetton) : M Jetton :=
  fun w =>
    let w1 := mkWorld (CallJettonUpdate (address j) :: events w)
                      (S (n_update w)) (n_get_state w) (n_transfer w) in
    match jetton_update gw (n_update w) (address j) with
    | Reply d => Some (Returned (mkJetton (address j) (Some d)), w1)
    | Fault e => Some (Raised e, w1)
    end.

Definition Wallet_get_state (wallet : Wallet) : M string :=
  fun w =>
    let w1 := mkWorld (CallGetState wallet :: events w)
                      (n_update w) (S (n_get_state w)) (n_transfer w) in
    Some (of_response (wallet_get_state gw (n_get_state w) wallet), w1).

Definition Wallet_transfer_jetton (source_wallet : Wallet)
    (destination_address jetton_master_address : string)
    (jettons_amount : Z) (fee : float) : M Z :=
  fun w =>
    let w1 := mkWorld (CallTransferJetton source_wallet destination_address
                         jetton_master_address jettons_amount fee :: events w)
                      (n_update w) (n_get_state w) (S (n_transfer w)) in
    Some (of_response
            (wallet_transfer_jetton gw (n_transfer w) source_wallet
               destination_address jetton_master_address jettons_amount fee),
          w1).

(** *** The retry decorator

    [@retry(stop=stop_after_attempt(n), wait=wait_fixed(s),
            retry=retry_if_exception_type(TonCenterClientError),
            after=after_log(logger, logging.INFO), reraise=...)].
    After an attempt, [tenacity] returns the result or re-raises an
    exception the predicate rejects; otherwise it runs [after], asks [stop],
    and either gives up or sleeps [wait] and starts the next attempt. *)

Definition stop_after_attempt (max_attempt_number attempt_number : Z) : bool :=
  max_attempt_number <=? attempt_number.

Definition retry_if_exception_type (cls : string) (e : exn) : bool :=
  isinstance e cls.

Definition after_log (attempt_number : Z) : M unit :=
  tell (LogInfo (FinishedCall attempt_number)).

(** [asyncio.sleep] of the fixed wait. *)
Definition wait_fixed (seconds : Z) : M unit := tell (RetryWait seconds).

(** On exhaustion: with [reraise] the last exception, else a [RetryError]. *)
Definition exhausted_error (reraise : bool) (e : exn) : exn :=
  if reraise then e else RetryError e.

Fixpoint attempts {A} (fuel : nat) (max_attempt_number wait : Z)
    (reraise : bool) (fn : M A) (attempt_number : Z) : M A :=
  match fuel with
  | O => fun _ => None
  | S fuel' =>
      try_except fn (fun e =>
        if retry_if_exception_type TonCenterClientError e then
          after_log attempt_number ;;
          if stop_after_attempt max_attempt_number attempt_number then
            raise (exhausted_error reraise e)
          else
            wait_fixed wait ;;
            attempts fuel' max_attempt_number wait reraise fn
              (attempt_number + 1)
        else raise e)
  end.

(** The first attempt has number 1; at most [max 1 n] attempts are made,
    which is the fuel given. *)
Definition retry {A} (max_attempt_number wait : Z) (reraise : bool)
    (fn : M A) : M A :=
  attempts (S (Z.to_nat (max_attempt_number - 1))) max_attempt_number wait
    reraise fn 1.

(** *** The program *)

Definition get_jetton_fn (jetton_address : string) : M Jetton :=
  let jetton := mkJetton jetton_address None in
  jetton <- Jetton_update jetton ;;
  logger_info (JettonInfo jetton) ;;
  ret jetton.

Definition get_jetton (jetton_address : string) : M Jetton :=
  retry (RETRIEVE_RETRY_ATTEMPTS env) (RETRIEVE_RETRY_WAIT env) true
    (get_jetton_fn jetton_address).

Definition get_wallet_fn (mnemonics : list string) (wallet_version : string)
    : M (Wallet * string) :=
  let wallet := mkWallet mnemonics wallet_version in
  state <- Wallet_get_state wallet ;;
  logger_info (SourceWalletState state) ;;
  ret (wallet, state).

Definition get_wallet (mnemonics : list string) (wallet_version : string)
    : M (Wallet * string) :=
  retry (RETRIEVE_RETRY_ATTEMPTS env) (RETRIEVE_RETRY_WAIT env) true
    (get_wallet_fn mnemonics wallet_version).

(** The [try] block of [send_jetton], lines 132-139. *)
Definition send_jetton_try (source_wallet : Wallet)
    (destination_wallet : string) (jetton : Jetton) (amount : Z) (fee : float)
    (sleep_seconds : Z) : M unit :=
  api_response_code <-
    Wallet_transfer_jetton source_wallet destination_wallet
      (address jetton) amount fee ;;
  logger_info (JettonSent destination_wallet api_response_code) ;;
  sleep gw sleep_seconds.

Definition send_jetton_fn (source_wallet : Wallet) (destination_wallet : string)
    (jetton : Jetton) (amount : Z) (fee : float) (sleep_seconds : Z) : M unit :=
  try_except
    (send_jetton_try source_wallet destination_wallet jetton amount fee
       sleep_seconds)
    (fun exc =>
       if isinstance exc GetMethodError then
         logger_error (GetMethodErrorFor destination_wallet exc)
       else
         logger_error (CannotSend destination_wallet exc) ;;
         raise exc).

Definition send_jetton (source_wallet : Wallet) (destination_wallet : string)
    (jetton : Jetton) (amount : Z) (fee : float) (sleep_seconds : Z) : M unit :=
  retry (SEND_RETRY_ATTEMPTS env) (SEND_RETRY_WAIT env) false
    (send_jetton_fn source_wallet destination_wallet jetton amount fee
       sleep_seconds).

(** [for x in xs: body x]. *)
Fixpoint for_each {A} (xs : list A) (body : A -> M unit) : M unit :=
  match xs with
  | [] => ret tt
  | x :: xs' => body x ;; for_each xs' body
  end.

(** The loop of [main], lines 170-178. *)
Definition send_all (args : Namespace) (source_wallet : Wallet)
    (jetton : Jetton) (destination_wallets : list string) : M unit :=
  for_each destination_wallets (fun destination_wallet =>
    send_jetton source_wallet destination_wallet jetton
      (jetton_send_amount args) (jetton_send_fee args)
      (jetton_send_sleep args)).

(** Lines 151-161: both resolutions under one [try]. *)
Definition resolve (args : Namespace) (source_wallet_mnemonic : list string)
    : M (Jetton * (Wallet * string)) :=
  try_except
    (jetton <- get_jetton (jetton_address args) ;;
     ws <- get_wallet source_wallet_mnemonic (source_wallet_version args) ;;
     ret (jetton, ws))
    (fun e =>
       if isinstance e TonCenterClientError then
         logger_exception CannotGetJettonOrWallet ;;
         exit 3
       else raise e).

(** [main], after [setup] returned its three values. *)
Definition main (args : Namespace) (source_wallet_mnemonic : list string)
    (destination_wallets : list string) : M unit :=
  r <- resolve args source_wallet_mnemonic ;;
  let '(jetton, (source_wallet, source_wallet_state)) := r in
  (if negb (String.eqb source_wallet_state WalletState.active) then
     logger_error (SourceWalletNotActive source_wallet) ;;
     exit 4
   else ret tt) ;;
  send_all args source_wallet jetton destination_wallets.

End Program.

(** ** What a run shows *)

(** Status of the process that ran [asyncio.run(main())]: 0 after a normal
    return, the code of a [SystemExit], 1 after any other exception. *)
Definition exit_status {A} (r : outcome A) : Z :=
  match r with
  | Returned _ => 0
  | Raised (SystemExit code) => code
  | Raised _ => 1
  end.

(** The events in the order they happened. *)
Definition history (w : World) : list event := rev (events w).

Definition is_sent (ev : event) : bool :=
  match ev with LogInfo (JettonSent _ _) => true | _ => false end.

Definition is_get_state (ev : event) : bool :=
  match ev with CallGetState _ => true | _ => false end.

(** The arguments of the transfers among some events. *)
Definition transfer_requests (evs : list event)
    : list (Wallet * string * string * Z * float) :=
  flat_map (fun ev =>
    match ev with
    | CallTransferJetton s d m a f => [(s, d, m, a, f)]
    | _ => []
    end) evs.

(** A fault the send decorator retries: a [TonCenterClientError] that the
    [except GetMethodError] clause of [send_jetton] does not catch. *)
Definition is_transient (e : exn) : bool :=
  isinstance e TonCenterClientError && negb (isinstance e GetMethodError).

(** The number of attempts a decorator configured with [n] can make. *)
Definition attempt_bound (n : Z) : Z := Z.max 1 n.

(** The decorator from attempt [attempt_number] on, with the fuel that is
    left at that attempt; [retry] is [retry_from] at attempt 1. *)
Definition retry_from {A} (max_attempt_number wait : Z) (reraise : bool)
    (fn : M A) (attempt_number : Z) : M A :=
  attempts (S (Z.to_nat (max_attempt_number - attempt_number)))
    max_attempt_number wait reraise fn attempt_number.

(** Every finished run of [m] relates the world it started in to the world
    it ended in by [R]. *)
Definition steps {A} (R : World -> World -> Prop) (m : M A) : Prop :=
  forall w r w', m w = Some (r, w') -> R w w'.

(** [w'] is [w] after the events [evs] (newest first). *)
Definition grows (evs : list event) (w w' : World) : Prop :=
  events w' = (evs ++ events w)%list.

(** The world after a call of [transfer_jetton]. *)
Definition transfer_called (source_wallet : Wallet)
    (destination_address jetton_master_address : string)
    (jettons_amount : Z) (fee : float) (w : World) : World :=
  mkWorld (CallTransferJetton source_wallet destination_address
             jetton_master_address jettons_amount fee :: events w)
          (n_update w) (n_get_state w) (S (n_transfer w)).

(** The request [send_jetton] makes for a destination. *)
Definition request_for (source_wallet : Wallet) (jetton : Jetton)
    (amount : Z) (fee : float) (destination_wallet : string)
    : Wallet * string * string * Z * float :=
  (source_wallet, destination_wallet, address jetton, amount, fee).

(** The gateway answers the transfer calls number [n] to [n + k - 1], made
    for the destination [d], with faults the send decorator retries. *)
Definition transient_faults (gw : Gateway) (source_wallet : Wallet)
    (jetton : Jetton) (amount : Z) (fee : float) (d : string)
    (n k : nat) : Prop :=
  forall i, (i < k)%nat ->
    exists e,
      wallet_transfer_jetton gw (n + i)%nat source_wallet d (address jetton)
        amount fee = Fault e /\
      is_transient e = true.

(** Events of a send that neither sleep nor report a transfer as sent. *)
Definition quiet (ev : event) : bool :=
  negb (is_sleep ev) && negb (is_sent ev) && negb (is_get_state ev).

(** Between [w] and [w'] only events that satisfy [P] happened. *)
Definition only (P : event -> bool) (w w' : World) : Prop :=
  exists evs, grows evs w w' /\ forallb P evs = true.

(** Events that are not part of a send. *)
Definition not_sending (ev : event) : bool :=
  negb (is_transfer ev) && negb (is_sleep ev) && negb (is_sent ev).

(** Resolution leaves the transfers alone. *)
Definition resolving (w w' : World) : Prop :=
  only not_sending w w' /\ n_transfer w' = n_transfer w.

(** As many delays as transfers reported as sent happened between [w] and
    [w']. *)
Definition paced (w w' : World) : Prop :=
  (count is_sleep w' + count is_sent w = count is_sleep w + count is_sent w')%nat.

(** Events other than a fetch of the wallet state. *)
Definition not_get_state (ev : event) : bool := negb (is_get_state ev).

Definition not_transfer (ev : event) : bool := negb (is_transfer ev).

(** Every call of [jetton.update()] the retrieve bound allows, from call
    number [n] on, fails with a [TonCenterClientError]. *)
Definition jetton_unavailable (gw : Gateway) (env : RetryEnv)
    (jetton_address : string) (n : nat) : Prop :=
  forall i, Z.of_nat i < attempt_bound (RETRIEVE_RETRY_ATTEMPTS env) ->
    exists e,
      jetton_update gw (n + i)%nat jetton_address = Fault e /\
      isinstance e TonCenterClientError = true.

(** The same for [wallet.get_state()]. *)
Definition wallet_unavailable (gw : Gateway) (env : RetryEnv)
    (wallet : Wallet) (n : nat) : Prop :=
  forall i, Z.of_nat i < attempt_bound (RETRIEVE_RETRY_ATTEMPTS env) ->
    exists e,
      wallet_get_state gw (n + i)%nat wallet = Fault e /\
      isinstance e TonCenterClientError = true.

(** The retried error, if any, in an answer of the gateway. *)
Definition client_error {A} (r : response A) : option exn :=
  match r with
  | Fault e => if isinstance e TonCenterClientError then Some e else None
  | Reply _ => None
  end.

(** Between [w] and [w'] the transfer [req] was requested, at least once,
    and nothing else. *)
Definition requested (req : Wallet * string * string * Z * float)
    (w w' : World) : Prop :=
  exists evs k,
    grows evs w w' /\ (1 <= k)%nat /\
    transfer_requests evs = repeat req k /\
    n_transfer w' = (n_transfer w + k)%nat.

(** The exit status of a finished run. *)
Definition run_status {A} (res : option (outcome A * World)) : option Z :=
  option_map (fun p => exit_status (fst p)) res.

(** The gateway accepts the first transfer call made for each of the
    destinations, when the calls are numbered from [n] on. *)
Definition all_accepted (gw : Gateway) (source_wallet : Wallet)
    (jetton : Jetton) (amount : Z) (fee : float)
    (destination_wallets : list string) (n : nat) : Prop :=
  forall i d, nth_error destination_wallets i = Some d ->
    exists c,
      wallet_transfer_jetton gw (n + i)%nat source_wallet d (address jetton)
        amount fee = Reply c.

(** The transfers of a run in which the i-th destination was tried
    [k_i] times, in order. *)
Definition blocks (source_wallet : Wallet) (jetton : Jetton)
    (amount : Z) (fee : float) (destination_wallets : list string)
    (ks : list nat) : list (Wallet * string * string * Z * float) :=
  flat_map (fun dk =>
              repeat (request_for source_wallet jetton amount fee (fst dk))
                (snd dk))
    (combine destination_wallets ks).

(** The error [time.sleep] raises for a length in the world [w], if it
    raises one. *)
Definition sleep_error (gw : Gateway) (w : World) (seconds : Z) : option exn :=
  match refused_length seconds with
  | Some exc => Some exc
  | None =>
      if sleep_refused gw (count is_sleep w) seconds then
        Some (OSError "[Errno 22] Invalid argument")
      else None
  end.

(** [time.sleep] accepts the length whenever it is called. *)
Definition sleep_always_accepted (gw : Gateway) (seconds : Z) : Prop :=
  forall w, sleep_error gw w seconds = None.

(** The gateway answers the transfer calls number [n], [n + 1], ... made
    for the destination [d] with the faults [es], in this order, and the
    send decorator retries each of them. *)
Definition transient_answers (gw : Gateway) (source_wallet : Wallet)
    (jetton : Jetton) (amount : Z) (fee : float) (d : string)
    (n : nat) (es : list exn) : Prop :=
  forall i e, nth_error es i = Some e ->
    wallet_transfer_jetton gw (n + i)%nat source_wallet d (address jetton)
      amount fee = Fault e /\
    is_transient e = true.

(** The world after the attempts number [a], [a + 1], ... of a send failed
    with the faults [es] and were retried: each attempt left the request,
    the error record of [send_jetton], the record of the decorator and the
    wait. *)
Fixpoint after_failures (wait : Z) (source_wallet : Wallet) (d master : string)
    (amount : Z) (fee : float) (es : list exn) (a : Z) (w : World) : World :=
  match es with
  | [] => w
  | e :: es' =>
      after_failures wait source_wallet d master amount fee es' (a + 1)
        (emit (RetryWait wait)
           (emit (LogInfo (FinishedCall a))
              (emit (LogError (CannotSend d e))
                 (transfer_called source_wallet d master amount fee w))))
  end.

(** In events listed newest first: every delay comes right after the
    record of a sent transfer, and every such record is followed at once
    by a delay. *)
Fixpoint delay_after_sent (evs : list event) : bool :=
  match evs with
  | [] => true
  | ev :: rest =>
      if is_sleep ev then
        match rest with
        | sent :: rest' => is_sent sent && delay_after_sent rest'
        | [] => false
        end
      else negb (is_sent ev) && delay_after_sent rest
  end.

(** Between [w] and [w'] every delay came right after the record of a
    sent transfer and every such record was followed at once by a delay. *)
Definition delayed (w w' : World) : Prop :=
  exists evs, grows evs w w' /\ delay_after_sent evs = true.

(** *** Gateways and inputs used as examples *)

Module Examples.

Definition rate_limited : exn :=
  PyExc ["TonCenterClientError"; "BaseException"] "rate limit exceeded".

Definition no_get_method : exn :=
  PyExc ["GetMethodError"; "TonCenterClientError"; "BaseException"]
    "exit code -13".

Definition broken_pipe : exn :=
  PyExc ["BrokenPipeError"; "OSError"; "Exception"; "BaseException"]
    "broken pipe".

Definition env : RetryEnv := mkRetryEnv 5 5 2 5.

Definition args : Namespace :=
  mkNamespace "key" "EQmaster" 10 0.5%float 60 "v4r2".

Definition words : list string := ["abandon"; "ability"].

Definition wallet : Wallet := mkWallet words "v4r2".

Definition jetton : Jetton := mkJetton "EQmaster" (Some "meta").

(** Every call succeeds. *)
Definition gw_ok : Gateway :=
  mkGateway (fun _ _ => Reply "meta") (fun _ _ => Reply "active")
    (fun _ _ _ _ _ _ => Reply 200) (fun _ _ => false).

(** Transfers to [d] answer with the fault [e], all others succeed. *)
Definition gw_fault (d : string) (e : exn) : Gateway :=
  mkGateway (fun _ _ => Reply "meta") (fun _ _ => Reply "active")
    (fun _ _ dest _ _ _ => if String.eqb dest d then Fault e else Reply 200)
    (fun _ _ => false).

(** The wallet is in the state [st]. *)
Definition gw_state (st : string) : Gateway :=
  mkGateway (fun _ _ => Reply "meta") (fun _ _ => Reply st)
    (fun _ _ _ _ _ _ => Reply 200) (fun _ _ => false).

(** The jetton cannot be fetched. *)
Definition gw_no_jetton : Gateway :=
  mkGateway (fun _ _ => Fault rate_limited) (fun _ _ => Reply "active")
    (fun _ _ _ _ _ _ => Reply 200) (fun _ _ => false).

(** The first transfer is rate limited, the second is rejected. *)
Definition gw_limited_then_rejected : Gateway :=
  mkGateway (fun _ _ => Reply "meta") (fun _ _ => Reply "active")
    (fun k _ _ _ _ _ =>
       match k with
       | O => Fault rate_limited
       | S O => Fault no_get_method
       | _ => Reply 200
       end)
    (fun _ _ => false).

(** An operation that fails with [e] whenever it is called. *)
Definition failing (e : exn) : M unit :=
  fun w => Some (Raised e, emit (LogError CannotGetJettonOrWallet) w).

(** The world of [gw_ok] after the two resolutions. *)
Definition resolved : World :=
  mkWorld [LogInfo (SourceWalletState "active"); CallGetState wallet;
           LogInfo (JettonInfo jetton); CallJettonUpdate "EQmaster"] 1 1 0.

(** The world of [gw_ok] after the send to "EQa". *)
Definition sent_first : World :=
  emit (Sleep 60) (emit (LogInfo (JettonSent "EQa" 200))
    (transfer_called wallet "EQa" "EQmaster" 10 0.5%float resolved)).

End Examples.

(** ** [setup]: the two input files

    [setup] parses the command line and reads the mnemonic file and the
    destination file.  The parsing is [argparse]'s and is taken as done: the
    embedding starts from the parsed namespace.  A file is read in text mode,
    so the file system is modelled by the decoded text of each path (line
    ends already translated to a line feed) or the error [open] raises; a
    character stands for the code point below 256 with its number. *)

From Stdlib Require Import Ascii.

(** The attributes of the namespace that only [setup] reads, beside the
    ones [main] uses. *)
Record SetupNamespace : Type := mkSetupNamespace {
  namespace : Namespace;
  source_wallet_mnemonic_file : string;
  destination_wallets_file : string
}.

Definition FileSystem : Type := string -> response string.

Definition FileNotFoundError : string := "FileNotFoundError".

Definition line_feed : ascii := ascii_of_nat 10.

(** [str.isspace] on one character: the code points 9-13, 28-32, 133
    and 160. *)
Definition isspace (c : ascii) : bool :=
  let n := N_of_ascii c in
  (((9 <=? n) && (n <=? 13)) || ((28 <=? n) && (n <=? 32)) ||
   (n =? 133) || (n =? 160))%N.

Fixpoint lstrip (s : string) : string :=
  match s with
  | EmptyString => EmptyString
  | String c s' => if isspace c then lstrip s' else s
  end.

Fixpoint rstrip (s : string) : string :=
  match s with
  | EmptyString => EmptyString
  | String c s' =>
      match rstrip s' with
      | EmptyString => if isspace c then EmptyString else String c EmptyString
      | r => String c r
      end
  end.

(** [s.strip()]: leading and trailing whitespace removed. *)
Definition strip (s : string) : string := rstrip (lstrip s).

(** [f.readlines()]: the text cut after every line feed; each line keeps
    its line feed, the last line has one only if the text ends with it. *)
Fixpoint readlines (text : string) : list string :=
  match text with
  | EmptyString => []
  | String c rest =>
      if Ascii.eqb c line_feed then String c EmptyString :: readlines rest
      else
        match readlines rest with
        | [] => [String c EmptyString]
        | l :: ls => String c l :: ls
        end
  end.

(** [with open(path) as f: [s.strip() for s in f.readlines()]]. *)
Definition read_stripped (fs : FileSystem) (path : string)
    : outcome (list string) :=
  match fs path with
  | Reply text => Returned (map strip (readlines text))
  | Fault e => Raised e
  end.

(** What [setup] logs before it exits. *)
Inductive setup_record : Type :=
| MnemonicFileNotFound (path : string)
| DestinationFileNotFound (path : string).

(** [setup], from the parsed namespace on: the error records it logged and
    its outcome.  Only [FileNotFoundError] is caught. *)
Definition setup (fs : FileSystem) (ns : SetupNamespace)
    : list setup_record * outcome (Namespace * list string * list string) :=
  match read_stripped fs (source_wallet_mnemonic_file ns) with
  | Raised e =>
      if isinstance e FileNotFoundError then
        ([MnemonicFileNotFound (source_wallet_mnemonic_file ns)],
         Raised (SystemExit 2))
      else ([], Raised e)
  | Returned source_wallet_mnemonic =>
      match read_stripped fs (destination_wallets_file ns) with
      | Raised e =>
          if isinstance e FileNotFoundError then
            ([DestinationFileNotFound (destination_wallets_file ns)],
             Raised (SystemExit 2))
          else ([], Raised e)
      | Returned destination_wallets =>
          ([], Returned (namespace ns, source_wallet_mnemonic,
                         destination_wallets))
      end
  end.

(** [asyncio.run(main())]: [setup], then the rest of [main] in a world in
    which nothing happened yet. *)
Definition script (gw : Gateway) (env : RetryEnv) (fs : FileSystem)
    (ns : SetupNamespace)
    : list setup_record * option (outcome unit * World) :=
  match setup fs ns with
  | (records, Returned (args, source_wallet_mnemonic, destination_wallets)) =>
      (records,
       main gw env args source_wallet_mnemonic destination_wallets world0)
  | (records, Raised e) => (records, Some (Raised e, world0))
  end.

(** No character of [s] is a line feed. *)
Fixpoint no_line_feed (s : string) : bool :=
  match s with
  | EmptyString => true
  | String c s' => negb (Ascii.eqb c line_feed) && no_line_feed s'
  end.

(** Every character of [s] is whitespace. *)
Fixpoint all_space (s : string) : bool :=
  match s with
  | EmptyString => true
  | String c s' => isspace c && all_space s'
  end.

(** The first and the last character of [s], if any. *)
Definition first_char (s : string) : option ascii :=
  match s with
  | EmptyString => None
  | String c _ => Some c
  end.

Fixpoint last_char (s : string) : option ascii :=
  match s with
  | EmptyString => None
  | String c s' =>
      match last_char s' with
      | None => Some c
      | Some l => Some l
      end
  end.

(** [s] neither begins nor ends with whitespace. *)
Definition trimmed (s : string) : bool :=
  match first_char s, last_char s with
  | Some a, Some b => negb (isspace a) && negb (isspace b)
  | _, _ => true
  end.

(** [s] is empty or ends with a line feed: a sequence of whole lines. *)
Definition whole_lines (s : string) : bool :=
  match last_char s with
  | None => true
  | Some c => Ascii.eqb c line_feed
  end.

Definition is_update (ev : event) : bool :=
  match ev with CallJettonUpdate _ => true | _ => false end.

(** Between [w] and [w'] the gateway was asked for nothing but transfers:
    no resolution call was made. *)
Definition resolution_untouched (w w' : World) : Prop :=
  n_update w' = n_update w /\ n_get_state w' = n_get_state w /\
  filter is_update (events w') = filter is_update (events w) /\
  filter is_get_state (events w') = filter is_get_state (events w).

(** Between [w] and [w'] at least one and at most [b] transfers were
    requested. *)
Definition transfers_within (b : nat) (w w' : World) : Prop :=
  (n_transfer w < n_transfer w' <= n_transfer w + b)%nat.

(** The calls number [n] to [n + k - 1] of [jetton.update()] fail with a
    [TonCenterClientError]. *)
Definition jetton_faults (gw : Gateway) (jetton_address : string)
    (n k : nat) : Prop :=
  forall i, (i < k)%nat ->
    exists e,
      jetton_update gw (n + i)%nat jetton_address = Fault e /\
      isinstance e TonCenterClientError = true.

(** The same for [wallet.get_state()]. *)
Definition wallet_faults (gw : Gateway) (wallet : Wallet)
    (n k : nat) : Prop :=
  forall i, (i < k)%nat ->
    exists e,
      wallet_get_state gw (n + i)%nat wallet = Fault e /\
      isinstance e TonCenterClientError = true.

(** Resolution of the jetton: no call of [wallet.get_state()]. *)
Definition jetton_only (w w' : World) : Prop :=
  resolving w w' /\ n_get_state w' = n_get_state w.

(** Resolution of the wallet: no call of [jetton.update()]. *)
Definition wallet_only (w w' : World) : Prop :=
  resolving w w' /\ n_update w' = n_update w.

Module SetupExamples.

Definition io_error : exn :=
  PyExc ["PermissionError"; "OSError"; "Exception"; "BaseException"]
    "permission denied".

Definition not_found : exn :=
  PyExc ["FileNotFoundError"; "OSError"; "Exception"; "BaseException"]
    "no such file".

Definition ns : SetupNamespace :=
  mkSetupNamespace Examples.args ".mnemonics" ".wallets".

(** Both files exist; the destination file has a blank second line. *)
Definition fs : FileSystem :=
  fun path =>
    if String.eqb path ".mnemonics" then
      Reply (String.append "abandon" (String line_feed
              (String.append " ability " (String line_feed ""))))
    else if String.eqb path ".wallets" then
      Reply (String.append "EQa " (String line_feed
              (String.append "  " (String line_feed "EQb"))))
    else Fault not_found.

(** Only the mnemonic file exists. *)
Definition fs_no_wallets : FileSystem :=
  fun path =>
    if String.eqb path ".mnemonics" then Reply "abandon" else Fault not_found.

(** No file exists. *)
Definition fs_empty : FileSystem := fun _ => Fault not_found.

(** The jetton is fetched at the third call. *)
Definition gw_slow_jetton : Gateway :=
  mkGateway
    (fun k _ =>
       match k with
       | O | S O => Fault Examples.rate_limited
       | _ => Reply "meta"
       end)
    (fun _ _ => Reply "active")
    (fun _ _ _ _ _ _ => Reply 200) (fun _ _ => false).

(** The jetton fetch fails with an error that is not retried. *)
Definition gw_broken_jetton : Gateway :=
  mkGateway (fun _ _ => Fault Examples.broken_pipe)
    (fun _ _ => Reply "active") (fun _ _ _ _ _ _ => Reply 200)
    (fun _ _ => false).

(** The first transfer is rate limited, the others are accepted. *)
Definition gw_limited_once : Gateway :=
  mkGateway (fun _ _ => Reply "meta") (fun _ _ => Reply "active")
    (fun k _ _ _ _ _ =>
       match k with
       | O => Fault Examples.rate_limited
       | _ => Reply 200
       end)
    (fun _ _ => false).

Definition args_negative_sleep : Namespace :=
  mkNamespace "key" "EQmaster" 10 0.5%float (-1) "v4r2".

End SetupExamples.

(** * Properties *)

(** ** The retry decorator *)

Section RetryPolicy.

Context {A : Type}.
Variables (max_attempt_number wait : Z) (reraise : bool) (fn : M A).

Local Abbreviation from := (retry_from max_attempt_number wait reraise fn).

Lemma retry_is_retry_from :
  retry max_attempt_number wait reraise fn = from 1.
Proof. reflexivity. Qed.

Lemma retry_from_returned a w v w1 :
  fn w = Some (Returned v, w1) -> from a w = Some (Returned v, w1).
Proof.
  intros H. unfold retry_from. cbn [attempts]. unfold try_except.
  now rewrite H.
Qed.

Lemma retry_from_rejected a w e w1 :
  fn w = Some (Raised e, w1) ->
  retry_if_exception_type TonCenterClientError e = false ->
  from a w = Some (Raised e, w1).
Proof.
  intros H He. unfold retry_from. cbn [attempts]. unfold try_except.
  rewrite H, He. reflexivity.
Qed.

Lemma retry_from_exhausted a w e w1 :
  fn w = Some (Raised e, w1) ->
  retry_if_exception_type TonCenterClientError e = true ->
  max_attempt_number <= a ->
  from a w = Some (Raised (exhausted_error reraise e),
                   emit (LogInfo (FinishedCall a)) w1).
Proof.
  intros H He Ha. unfold retry_from. cbn [attempts]. unfold try_except.
  rewrite H, He. unfold bind, after_log, tell, stop_after_attempt.
  apply Z.leb_le in Ha. rewrite Ha. reflexivity.
Qed.

Lemma retry_from_again a w e w1 :
  fn w = Some (Raised e, w1) ->
  retry_if_exception_type TonCenterClientError e = true ->
  a < max_attempt_number ->
  from a w =
  from (a + 1) (emit (RetryWait wait) (emit (LogInfo (FinishedCall a)) w1)).
Proof.
  intros H He Ha. unfold retry_from.
  replace (Z.to_nat (max_attempt_number - a))
    with (S (Z.to_nat (max_attempt_number - (a + 1)))) by lia.
  cbn [attempts]. unfold try_except at 1. rewrite H, He.
  unfold bind at 1, after_log, tell, stop_after_attempt.
  apply Z.leb_gt in Ha. rewrite Ha. reflexivity.
Qed.

(** The decorator keeps every relation between worlds that the wrapped
    function keeps and that survives the decorator's own log record and
    wait. *)
Lemma attempts_steps (R : World -> World -> Prop) :
  (forall w1 w2 w3, R w1 w2 -> R w2 w3 -> R w1 w3) ->
  (forall w1 w2 a, R w1 w2 -> R w1 (emit (LogInfo (FinishedCall a)) w2)) ->
  (forall w1 w2 s, R w1 w2 -> R w1 (emit (RetryWait s) w2)) ->
  steps R fn ->
  forall fuel a, steps R (attempts fuel max_attempt_number wait reraise fn a).
Proof.
  intros Htrans Hlog Hwait Hfn fuel.
  induction fuel as [|fuel IH]; intros a w r w' Hrun; [discriminate|].
  cbn [attempts] in Hrun. unfold try_except in Hrun.
  destruct (fn w) as [[[v|e] w1]|] eqn:E; try discriminate.
  - inversion Hrun; subst. eapply Hfn; eauto.
  - pose proof (Hfn _ _ _ E) as Hw1.
    destruct (retry_if_exception_type TonCenterClientError e).
    + unfold bind at 1, after_log, tell in Hrun.
      destruct (stop_after_attempt max_attempt_number a).
      * inversion Hrun; subst. now apply Hlog.
      * unfold bind at 1, wait_fixed, tell in Hrun.
        apply IH in Hrun. eapply Htrans; [|exact Hrun].
        now apply Hwait, Hlog.
    + inversion Hrun; subst. exact Hw1.
Qed.

(** With the fuel [retry] provides, the decorator always finishes when the
    wrapped function does. *)
Lemma retry_from_total :
  (forall w, fn w <> None) ->
  forall n a w, Z.to_nat (max_attempt_number - a) = n -> from a w <> None.
Proof.
  intros Hfn n. induction n as [|n IH]; intros a w Hn.
  - destruct (fn w) as [[[v|e] w1]|] eqn:E; [| |now apply Hfn in E].
    + erewrite retry_from_returned by eauto. discriminate.
    + destruct (retry_if_exception_type TonCenterClientError e) eqn:He.
      * erewrite retry_from_exhausted by (eauto; lia). discriminate.
      * erewrite retry_from_rejected by eauto. discriminate.
  - destruct (fn w) as [[[v|e] w1]|] eqn:E; [| |now apply Hfn in E].
    + erewrite retry_from_returned by eauto. discriminate.
    + destruct (retry_if_exception_type TonCenterClientError e) eqn:He.
      * erewrite retry_from_again by (eauto; lia). apply IH. lia.
      * erewrite retry_from_rejected by eauto. discriminate.
Qed.

End RetryPolicy.

(** C7: what the retry decorator does with an error of the wrapped
    operation.  At attempt [a], an error the predicate rejects is raised
    as it is, in the world the operation left (no log record of the
    decorator, no wait, no further attempt); a [TonCenterClientError] below
    the bound is followed by the decorator's log record, the fixed wait and
    attempt [a + 1]; at the bound it ends the attempts. *)
Theorem retry_policy_on_error :
  forall (A : Type) (max_attempt_number wait : Z) (reraise : bool)
         (fn : M A) (a : Z) (w : World) (e : exn) (w1 : World),
    fn w = Some (Raised e, w1) ->
    (retry_if_exception_type TonCenterClientError e = false ->
     retry_from max_attempt_number wait reraise fn a w = Some (Raised e, w1))
    /\
    (retry_if_exception_type TonCenterClientError e = true ->
     a < max_attempt_number ->
     retry_from max_attempt_number wait reraise fn a w =
     retry_from max_attempt_number wait reraise fn (a + 1)
       (emit (RetryWait wait) (emit (LogInfo (FinishedCall a)) w1)))
    /\
    (retry_if_exception_type TonCenterClientError e = true ->
     max_attempt_number <= a ->
     retry_from max_attempt_number wait reraise fn a w =
     Some (Raised (exhausted_error reraise e),
           emit (LogInfo (FinishedCall a)) w1))
    /\
    retry max_attempt_number wait reraise fn =
    retry_from max_attempt_number wait reraise fn 1.
Proof.
  intros A n s rr fn a w e w1 H. repeat split; intros.
  - now apply retry_from_rejected.
  - now apply retry_from_again with (e := e).
  - now apply retry_from_exhausted.
Qed.

Lemma retry_policy_on_error_witness :
  Examples.failing Examples.broken_pipe world0 =
    Some (Raised Examples.broken_pipe,
          emit (LogError CannotGetJettonOrWallet) world0) /\
  retry_from 5 5 true (Examples.failing Examples.broken_pipe) 1 world0 =
    Some (Raised Examples.broken_pipe,
          emit (LogError CannotGetJettonOrWallet) world0).
Proof.
  split; [reflexivity|].
  apply (retry_policy_on_error unit 5 5 true
           (Examples.failing Examples.broken_pipe) 1 world0
           Examples.broken_pipe
           (emit (LogError CannotGetJettonOrWallet) world0));
    reflexivity.
Defined.

(** ** One send *)

Section Sending.

Variables (gw : Gateway) (env : RetryEnv).
Variables (source_wallet : Wallet) (jetton : Jetton).
Variables (amount : Z) (fee : float) (sleep_seconds : Z).

Local Abbreviation answer n d :=
  (wallet_transfer_jetton gw n source_wallet d (address jetton) amount fee).
Local Abbreviation called d w :=
  (transfer_called source_wallet d (address jetton) amount fee w).
Local Abbreviation send_fn d :=
  (send_jetton_fn gw source_wallet d jetton amount fee sleep_seconds).
Local Abbreviation send d :=
  (send_jetton gw env source_wallet d jetton amount fee sleep_seconds).
Local Abbreviation send_from d :=
  (retry_from (SEND_RETRY_ATTEMPTS env) (SEND_RETRY_WAIT env) false
     (send_fn d)).
Local Abbreviation request d :=
  (request_for source_wallet jetton amount fee d).

Lemma sleep_spec s0 w :
  sleep gw s0 w =
  match sleep_error gw w s0 with
  | Some exc => Some (Raised exc, w)
  | None => Some (Returned tt, emit (Sleep s0) w)
  end.
Proof.
  unfold sleep, sleep_error. destruct (refused_length s0); [reflexivity|].
  destruct (sleep_refused gw (count is_sleep w) s0); reflexivity.
Qed.

(** An error of [time.sleep] is neither of the classes [send_jetton]
    treats apart. *)
Lemma sleep_error_class s0 w exc :
  sleep_error gw w s0 = Some exc ->
  isinstance exc GetMethodError = false /\
  isinstance exc TonCenterClientError = false.
Proof.
  unfold sleep_error, refused_length.
  destruct ((s0 <? - sleep_limit) || (sleep_limit <? s0)).
  - intros H. inversion H. split; reflexivity.
  - destruct (s0 <? 0).
    + intros H. inversion H. split; reflexivity.
    + destruct (sleep_refused gw (count is_sleep w) s0); [|discriminate].
      intros H. inversion H. split; reflexivity.
Qed.

Lemma send_try_fault d w e :
  answer (n_transfer w) d = Fault e ->
  send_jetton_try gw source_wallet d jetton amount fee sleep_seconds w =
  Some (Raised e, called d w).
Proof.
  intros H. unfold send_jetton_try, bind, Wallet_transfer_jetton.
  rewrite H. reflexivity.
Qed.

Lemma send_try_reply d w c :
  answer (n_transfer w) d = Reply c ->
  send_jetton_try gw source_wallet d jetton amount fee sleep_seconds w =
  match sleep_error gw w sleep_seconds with
  | Some exc => Some (Raised exc, emit (LogInfo (JettonSent d c)) (called d w))
  | None =>
      Some (Returned tt,
            emit (Sleep sleep_seconds)
              (emit (LogInfo (JettonSent d c)) (called d w)))
  end.
Proof.
  intros H. unfold send_jetton_try, bind, Wallet_transfer_jetton.
  rewrite H. cbn [of_response]. unfold logger_info, tell at 1.
  rewrite sleep_spec. reflexivity.
Qed.

Lemma send_fn_sent d w c :
  answer (n_transfer w) d = Reply c ->
  sleep_error gw w sleep_seconds = None ->
  send_fn d w =
  Some (Returned tt,
        emit (Sleep sleep_seconds) (emit (LogInfo (JettonSent d c)) (called d w))).
Proof.
  intros H Hs. unfold send_jetton_fn, try_except.
  rewrite (send_try_reply _ _ _ H), Hs. reflexivity.
Qed.

Lemma send_fn_sleep_refused d w c exc :
  answer (n_transfer w) d = Reply c ->
  sleep_error gw w sleep_seconds = Some exc ->
  send_fn d w =
  Some (Raised exc,
        emit (LogError (CannotSend d exc))
          (emit (LogInfo (JettonSent d c)) (called d w))).
Proof.
  intros H Hs. unfold send_jetton_fn, try_except.
  rewrite (send_try_reply _ _ _ H), Hs.
  destruct (sleep_error_class _ _ _ Hs) as [-> _]. reflexivity.
Qed.

Lemma send_fn_rejected d w e :
  answer (n_transfer w) d = Fault e -> isinstance e GetMethodError = true ->
  send_fn d w =
  Some (Returned tt, emit (LogError (GetMethodErrorFor d e)) (called d w)).
Proof.
  intros H He. unfold send_jetton_fn, try_except.
  rewrite (send_try_fault _ _ _ H), He. reflexivity.
Qed.

Lemma send_fn_failed d w e :
  answer (n_transfer w) d = Fault e -> isinstance e GetMethodError = false ->
  send_fn d w =
  Some (Raised e, emit (LogError (CannotSend d e)) (called d w)).
Proof.
  intros H He. unfold send_jetton_fn, try_except.
  rewrite (send_try_fault _ _ _ H), He. reflexivity.
Qed.

(** The four ways one attempt can end. *)
Lemma send_fn_cases d w :
  (exists c, answer (n_transfer w) d = Reply c /\
     sleep_error gw w sleep_seconds = None /\
     send_fn d w =
     Some (Returned tt,
           emit (Sleep sleep_seconds)
             (emit (LogInfo (JettonSent d c)) (called d w)))) \/
  (exists c exc, answer (n_transfer w) d = Reply c /\
     sleep_error gw w sleep_seconds = Some exc /\
     send_fn d w =
     Some (Raised exc,
           emit (LogError (CannotSend d exc))
             (emit (LogInfo (JettonSent d c)) (called d w)))) \/
  (exists e, answer (n_transfer w) d = Fault e /\
     isinstance e GetMethodError = true /\
     send_fn d w =
     Some (Returned tt, emit (LogError (GetMethodErrorFor d e)) (called d w))) \/
  (exists e, answer (n_transfer w) d = Fault e /\
     isinstance e GetMethodError = false /\
     send_fn d w =
     Some (Raised e, emit (LogError (CannotSend d e)) (called d w))).
Proof.
  destruct (answer (n_transfer w) d) as [c|e] eqn:E.
  - destruct (sleep_error gw w sleep_seconds) as [exc|] eqn:Hs.
    + right; left. exists c, exc. repeat split; auto.
      now apply send_fn_sleep_refused.
    + left. exists c. repeat split; auto. now apply send_fn_sent.
  - destruct (isinstance e GetMethodError) eqn:He.
    + right; right; left. exists e. repeat split; auto.
      now apply send_fn_rejected.
    + right; right; right. exists e. repeat split; auto.
      now apply send_fn_failed.
Qed.

Lemma send_fn_total d w : send_fn d w <> None.
Proof.
  destruct (send_fn_cases d w) as [(c & _ & _ & H)|[(c & x & _ & _ & H)|
    [(e & _ & _ & H)|(e & _ & _ & H)]]]; rewrite H; discriminate.
Qed.

Lemma send_is_send_from d : send d = send_from d 1.
Proof. reflexivity. Qed.

Lemma send_from_total d a w : send_from d a w <> None.
Proof.
  eapply retry_from_total; [intro; apply send_fn_total | reflexivity].
Qed.

Lemma is_transient_split e :
  is_transient e = true ->
  isinstance e TonCenterClientError = true /\
  isinstance e GetMethodError = false.
Proof.
  unfold is_transient. intros H. apply andb_true_iff in H.
  destruct H as [H1 H2]. apply negb_true_iff in H2. auto.
Qed.

(** [k] attempts in a row that fail with a retried fault, none of them the
    last one allowed: the decorator is then at attempt [a + k], [k] calls
    later, and nothing but calls, log records and waits happened. *)
Lemma send_from_transient d :
  forall k a w,
    transient_faults gw source_wallet jetton amount fee d (n_transfer w) k ->
    Z.of_nat k <= Z.max 0 (SEND_RETRY_ATTEMPTS env - a) ->
    exists w' evs,
      send_from d a w = send_from d (a + Z.of_nat k) w' /\
      n_transfer w' = (n_transfer w + k)%nat /\
      grows evs w w' /\
      forallb quiet evs = true /\
      transfer_requests evs = repeat (request d) k.
Proof.
  induction k as [|k IH]; intros a w Hf Hk.
  - exists w, []. repeat split; auto.
    now rewrite Z.add_0_r.
  - destruct (Hf O ltac:(lia)) as (e & He & Ht).
    rewrite Nat.add_0_r in He.
    apply is_transient_split in Ht. destruct Ht as [Ht Hg].
    pose proof (send_fn_failed d w e He Hg) as Hfn.
    set (w1 := emit (RetryWait (SEND_RETRY_WAIT env))
                 (emit (LogInfo (FinishedCall a))
                    (emit (LogError (CannotSend d e)) (called d w)))).
    destruct (IH (a + 1) w1) as (w' & evs & Hrun & Hn & Hg' & Hq & Hreq).
    + intros i Hi. destruct (Hf (S i) ltac:(lia)) as (e' & He' & Ht').
      exists e'. split; auto. cbn. rewrite <- He'. f_equal. lia.
    + lia.
    + exists w'.
      exists (evs ++ [RetryWait (SEND_RETRY_WAIT env); LogInfo (FinishedCall a);
                      LogError (CannotSend d e);
                      CallTransferJetton source_wallet d (address jetton)
                        amount fee])%list.
      repeat split.
      * rewrite (retry_from_again _ _ _ _ a w e _ Hfn Ht) by lia.
        fold w1. rewrite Hrun. f_equal. lia.
      * rewrite Hn. cbn. lia.
      * unfold grows in *. rewrite Hg', <- app_assoc. reflexivity.
      * rewrite forallb_app, Hq. reflexivity.
      * unfold transfer_requests in *. rewrite flat_map_app, Hreq. cbn.
        symmetry. apply (repeat_cons k (request d)).
Qed.

End Sending.

(** ** Relations between worlds *)

Lemma only_refl P w : only P w w.
Proof. exists []. split; reflexivity. Qed.

Lemma only_trans P w1 w2 w3 : only P w1 w2 -> only P w2 w3 -> only P w1 w3.
Proof.
  intros (e1 & H1 & Q1) (e2 & H2 & Q2). exists (e2 ++ e1)%list. split.
  - unfold grows in *. now rewrite H2, H1, app_assoc.
  - now rewrite forallb_app, Q1, Q2.
Qed.

Lemma only_emit P w1 w2 ev : P ev = true -> only P w1 w2 -> only P w1 (emit ev w2).
Proof.
  intros Hev (e1 & H1 & Q1). exists (ev :: e1). split.
  - unfold grows in *. cbn. now rewrite H1.
  - cbn. now rewrite Hev, Q1.
Qed.

Lemma resolving_refl w : resolving w w.
Proof. split; [apply only_refl | reflexivity]. Qed.

Lemma resolving_trans w1 w2 w3 :
  resolving w1 w2 -> resolving w2 w3 -> resolving w1 w3.
Proof.
  intros [H1 N1] [H2 N2]. split; [eapply only_trans; eauto | congruence].
Qed.

Lemma resolving_emit w1 w2 ev :
  not_sending ev = true -> resolving w1 w2 -> resolving w1 (emit ev w2).
Proof.
  intros Hev [H1 N1]. split; [now apply only_emit | exact N1].
Qed.

(** Resolution adds no transfer: neither a call nor a count. *)
Lemma resolving_transfers w w' :
  resolving w w' ->
  filter is_transfer (events w') = filter is_transfer (events w) /\
  count is_sleep w' = count is_sleep w /\
  count is_sent w' = count is_sent w /\
  n_transfer w' = n_transfer w.
Proof.
  intros [(evs & Hg & Hq) Hn]. unfold count. rewrite Hg.
  rewrite !filter_app.
  assert (filter is_transfer evs = [] /\ filter is_sleep evs = [] /\
          filter is_sent evs = []) as (E1 & E2 & E3).
  { clear Hg. induction evs as [|ev evs IH]; [auto|].
    cbn in Hq. apply andb_true_iff in Hq. destruct Hq as [Hev Hq].
    destruct (IH Hq) as (I1 & I2 & I3).
    unfold not_sending in Hev.
    apply andb_true_iff in Hev. destruct Hev as [Hev H3].
    apply andb_true_iff in Hev. destruct Hev as [H1 H2].
    apply negb_true_iff in H1, H2, H3.
    cbn. rewrite H1, H2, H3. auto. }
  rewrite E1, E2, E3. auto.
Qed.

Lemma paced_refl w : paced w w.
Proof. unfold paced. lia. Qed.

Lemma paced_trans w1 w2 w3 : paced w1 w2 -> paced w2 w3 -> paced w1 w3.
Proof. unfold paced. lia. Qed.

Lemma paced_emit w1 w2 ev :
  is_sleep ev = false -> is_sent ev = false ->
  paced w1 w2 -> paced w1 (emit ev w2).
Proof.
  unfold paced, count. cbn. intros -> ->. auto.
Qed.

(** ** The loop and [main] *)

Lemma steps_bind {A B} (R : World -> World -> Prop) (m : M A) (k : A -> M B) :
  (forall w1 w2 w3, R w1 w2 -> R w2 w3 -> R w1 w3) ->
  steps R m -> (forall v, steps R (k v)) -> steps R (bind m k).
Proof.
  intros Htrans Hm Hk w r w' Hrun. unfold bind in Hrun.
  destruct (m w) as [[[v|e] w1]|] eqn:E; try discriminate.
  - eapply Htrans; [eapply Hm; eauto | eapply Hk; eauto].
  - inversion Hrun; subst. eapply Hm; eauto.
Qed.

Lemma steps_for_each {A} (R : World -> World -> Prop) (body : A -> M unit) :
  (forall w, R w w) ->
  (forall w1 w2 w3, R w1 w2 -> R w2 w3 -> R w1 w3) ->
  (forall x, steps R (body x)) ->
  forall xs, steps R (for_each xs body).
Proof.
  intros Hrefl Htrans Hbody xs. induction xs as [|x xs IH].
  - intros w r w' Hrun. inversion Hrun; subst. apply Hrefl.
  - cbn [for_each]. apply steps_bind; auto.
Qed.

Section Run.

Variables (gw : Gateway) (env : RetryEnv) (args : Namespace).
Variables (source_wallet : Wallet) (jetton : Jetton).

Local Abbreviation send d :=
  (send_jetton gw env source_wallet d jetton (jetton_send_amount args)
     (jetton_send_fee args) (jetton_send_sleep args)).
Local Abbreviation loop := (send_all gw env args source_wallet jetton).

Lemma send_all_cons d rest w :
  loop (d :: rest) w =
  match send d w with
  | Some (Returned _, w1) => loop rest w1
  | Some (Raised e, w1) => Some (Raised e, w1)
  | None => None
  end.
Proof. reflexivity. Qed.

Lemma send_all_app_returned pre post w w1 :
  loop pre w = Some (Returned tt, w1) -> loop (pre ++ post) w = loop post w1.
Proof.
  revert w. induction pre as [|d pre IH]; intros w H.
  - inversion H; subst. reflexivity.
  - cbn [app]. rewrite send_all_cons in *.
    destruct (send d w) as [[[[]|e] w2]|]; try discriminate. now apply IH.
Qed.

Lemma send_all_raised d rest w e w1 :
  send d w = Some (Raised e, w1) -> loop (d :: rest) w = Some (Raised e, w1).
Proof. intros H. rewrite send_all_cons, H. reflexivity. Qed.

Lemma send_all_returned d rest w w1 :
  send d w = Some (Returned tt, w1) -> loop (d :: rest) w = loop rest w1.
Proof. intros H. rewrite send_all_cons, H. reflexivity. Qed.

Lemma send_all_total dests w : loop dests w <> None.
Proof.
  revert w. induction dests as [|d rest IH]; intros w; [discriminate|].
  rewrite send_all_cons.
  pose proof (send_from_total gw env source_wallet jetton
                (jetton_send_amount args) (jetton_send_fee args)
                (jetton_send_sleep args) d 1 w) as Ht.
  rewrite <- send_is_send_from in Ht.
  destruct (send d w) as [[[[]|e] w2]|]; [apply IH|discriminate|congruence].
Qed.

End Run.

Section Main.

Variables (gw : Gateway) (env : RetryEnv) (args : Namespace).
Variable source_wallet_mnemonic : list string.

Local Abbreviation run := (main gw env args source_wallet_mnemonic).
Local Abbreviation resolved_by w :=
  (resolve gw env args source_wallet_mnemonic w).

(** [main] once both resolutions returned: the comparison with
    [WalletState.active] decides between the loop and [exit(4)]. *)
Lemma main_resolved dests w jetton wallet state w1 :
  resolved_by w = Some (Returned (jetton, (wallet, state)), w1) ->
  run dests w =
  if String.eqb state WalletState.active then
    send_all gw env args wallet jetton dests w1
  else
    Some (Raised (SystemExit 4), emit (LogError (SourceWalletNotActive wallet)) w1).
Proof.
  intros H. unfold main, bind at 1. rewrite H.
  destruct (String.eqb state WalletState.active); reflexivity.
Qed.

Lemma main_not_resolved dests w e w1 :
  resolved_by w = Some (Raised e, w1) -> run dests w = Some (Raised e, w1).
Proof. intros H. unfold main, bind at 1. now rewrite H. Qed.

Lemma get_jetton_fn_steps addr :
  steps resolving (get_jetton_fn gw addr).
Proof.
  intros w r w' H. unfold get_jetton_fn, bind, Jetton_update in H. cbn in H.
  destruct (jetton_update gw (n_update w) addr); inversion H; subst; clear H.
  - split; [|reflexivity]. eexists [_; _]. split; reflexivity.
  - split; [|reflexivity]. eexists [_]. split; reflexivity.
Qed.

Lemma get_wallet_fn_steps mn v :
  steps resolving (get_wallet_fn gw mn v).
Proof.
  intros w r w' H. unfold get_wallet_fn, bind, Wallet_get_state in H. cbn in H.
  destruct (wallet_get_state gw (n_get_state w) (mkWallet mn v));
    inversion H; subst; clear H.
  - split; [|reflexivity]. eexists [_; _]. split; reflexivity.
  - split; [|reflexivity]. eexists [_]. split; reflexivity.
Qed.

Lemma retry_resolving {A} n s rr (fn : M A) :
  steps resolving fn -> steps resolving (retry n s rr fn).
Proof.
  intros H. apply attempts_steps; auto.
  - apply resolving_trans.
  - intros. now apply resolving_emit.
  - intros. now apply resolving_emit.
Qed.

Lemma resolve_steps : steps resolving (fun w => resolved_by w).
Proof.
  intros w r w' H. unfold resolve, try_except in H.
  match type of H with
  | match ?m w with _ => _ end = _ =>
      assert (steps resolving m) as Hm
  end.
  { apply steps_bind; [apply resolving_trans| |intro jetton].
    - apply retry_resolving, get_jetton_fn_steps.
    - apply steps_bind; [apply resolving_trans| |intro ws].
      + apply retry_resolving, get_wallet_fn_steps.
      + intros w0 r0 w0' H0. inversion H0; subst. apply resolving_refl. }
  match type of H with
  | match ?m w with _ => _ end = _ =>
      destruct (m w) as [[[v|e] w1]|] eqn:E; try discriminate
  end.
  - inversion H; subst. eapply Hm; eauto.
  - apply Hm in E. destruct (isinstance e TonCenterClientError).
    + inversion H; subst. now apply resolving_emit.
    + inversion H; subst. exact E.
Qed.

End Main.

(** ** Attempts that all fail *)

Section Faults.

Context {A : Type}.
Variables (max_attempt_number wait : Z) (reraise : bool) (fn : M A).
(** [calls] counts the calls of the gateway method [fn] uses; [fault k] is
    the retried error with which the call number [k] makes [fn] fail. *)
Variables (calls : World -> nat) (fault : nat -> option exn).
Variable R : World -> World -> Prop.

Hypothesis R_refl : forall w, R w w.
Hypothesis R_trans : forall w1 w2 w3, R w1 w2 -> R w2 w3 -> R w1 w3.
Hypothesis R_log :
  forall w1 w2 a, R w1 w2 -> R w1 (emit (LogInfo (FinishedCall a)) w2).
Hypothesis R_wait : forall w1 w2 s, R w1 w2 -> R w1 (emit (RetryWait s) w2).
Hypothesis calls_emit : forall ev w, calls (emit ev w) = calls w.
Hypothesis fn_fault :
  forall w e, fault (calls w) = Some e ->
    retry_if_exception_type TonCenterClientError e = true /\
    exists w1, fn w = Some (Raised e, w1) /\ calls w1 = S (calls w) /\ R w w1.

Local Abbreviation from := (retry_from max_attempt_number wait reraise fn).

Lemma retry_from_faults :
  forall k a w,
    (forall i, (i < k)%nat -> fault (calls w + i) <> None) ->
    Z.of_nat k <= Z.max 0 (max_attempt_number - a) ->
    exists w',
      from a w = from (a + Z.of_nat k) w' /\
      calls w' = (calls w + k)%nat /\ R w w'.
Proof.
  induction k as [|k IH]; intros a w Hf Hk.
  - exists w. repeat split; auto. now rewrite Z.add_0_r.
  - destruct (fault (calls w)) as [e|] eqn:E.
    2:{ exfalso. apply (Hf O); [lia|]. now rewrite Nat.add_0_r. }
    destruct (fn_fault w e E) as (He & w1 & Hfn & Hc & HR).
    set (w2 := emit (RetryWait wait) (emit (LogInfo (FinishedCall a)) w1)).
    destruct (IH (a + 1) w2) as (w' & Hrun & Hc' & HR').
    + intros i Hi. unfold w2. rewrite !calls_emit, Hc.
      replace (S (calls w) + i)%nat with (calls w + S i)%nat by lia.
      apply Hf. lia.
    + lia.
    + exists w'. repeat split.
      * rewrite (retry_from_again _ _ _ _ a w e w1 Hfn He) by lia.
        fold w2. rewrite Hrun. f_equal. lia.
      * rewrite Hc'. unfold w2. rewrite !calls_emit, Hc. lia.
      * eapply R_trans; [|exact HR']. now apply R_wait, R_log.
Qed.

(** When every attempt the bound allows fails with a retried error, the
    decorator stops after exactly [attempt_bound] calls with the error of
    the last one. *)
Lemma retry_all_faults w :
  (forall i, Z.of_nat i < attempt_bound max_attempt_number ->
             fault (calls w + i) <> None) ->
  exists e w',
    fault (calls w + Z.to_nat (attempt_bound max_attempt_number - 1)) = Some e /\
    retry max_attempt_number wait reraise fn w =
      Some (Raised (exhausted_error reraise e), w') /\
    calls w' = (calls w + Z.to_nat (attempt_bound max_attempt_number))%nat /\
    R w w'.
Proof.
  intros Hf. unfold attempt_bound in *.
  set (k := Z.to_nat (Z.max 1 max_attempt_number - 1)).
  destruct (retry_from_faults k 1 w) as (w1 & Hrun & Hc & HR).
  { intros i Hi. apply Hf. lia. }
  { lia. }
  destruct (fault (calls w1)) as [e|] eqn:E.
  2:{ exfalso. rewrite Hc in E. revert E. apply Hf. lia. }
  destruct (fn_fault w1 e E) as (He & w2 & Hfn & Hc2 & HR2).
  exists e, (emit (LogInfo (FinishedCall (1 + Z.of_nat k))) w2).
  repeat split.
  - now rewrite <- Hc.
  - rewrite retry_is_retry_from, Hrun.
    apply retry_from_exhausted; auto. lia.
  - rewrite calls_emit, Hc2, Hc. lia.
  - eapply R_trans; [exact HR|]. now apply R_log.
Qed.

End Faults.

(** ** Resolution and the activation check *)

Section Resolution.

Variables (gw : Gateway) (env : RetryEnv) (args : Namespace).
Variable source_wallet_mnemonic : list string.

Local Abbreviation run := (main gw env args source_wallet_mnemonic).
Local Abbreviation resolved_by w :=
  (resolve gw env args source_wallet_mnemonic w).
Local Abbreviation the_wallet :=
  (mkWallet source_wallet_mnemonic (source_wallet_version args)).

Lemma client_error_fault {A} (r : response A) e :
  client_error r = Some e ->
  r = Fault e /\ retry_if_exception_type TonCenterClientError e = true.
Proof.
  destruct r as [v|e']; cbn; [discriminate|].
  unfold retry_if_exception_type.
  destruct (isinstance e' TonCenterClientError) eqn:E; [|discriminate].
  intros H. inversion H; subst. auto.
Qed.

Lemma get_jetton_exhausted w :
  jetton_unavailable gw env (jetton_address args) (n_update w) ->
  exists e w',
    jetton_update gw
      (n_update w + Z.to_nat (attempt_bound (RETRIEVE_RETRY_ATTEMPTS env) - 1))
      (jetton_address args) = Fault e /\
    isinstance e TonCenterClientError = true /\
    get_jetton gw env (jetton_address args) w = Some (Raised e, w') /\
    resolving w w'.
Proof.
  intros Hf.
  destruct (retry_all_faults (RETRIEVE_RETRY_ATTEMPTS env)
              (RETRIEVE_RETRY_WAIT env) true
              (get_jetton_fn gw (jetton_address args)) n_update
              (fun k => client_error (jetton_update gw k (jetton_address args)))
              resolving resolving_refl resolving_trans) with (w := w)
    as (e & w' & He & Hrun & _ & HR).
  - intros. now apply resolving_emit.
  - intros. now apply resolving_emit.
  - reflexivity.
  - intros w0 e H. apply client_error_fault in H. destruct H as [H He].
    split; [exact He|]. eexists. split; [|split].
    + unfold get_jetton_fn, bind, Jetton_update. cbn. rewrite H. reflexivity.
    + reflexivity.
    + split; [|reflexivity]. eexists [_]. split; reflexivity.
  - intros i Hi. destruct (Hf i Hi) as (e & H & He). rewrite H. cbn.
    rewrite He. discriminate.
  - apply client_error_fault in He. destruct He as [He Ht].
    exists e, w'. split; [exact He|]. split; [exact Ht|].
    split; [exact Hrun | exact HR].
Qed.

Lemma get_wallet_exhausted w :
  wallet_unavailable gw env the_wallet (n_get_state w) ->
  exists e w',
    wallet_get_state gw
      (n_get_state w +
       Z.to_nat (attempt_bound (RETRIEVE_RETRY_ATTEMPTS env) - 1))
      the_wallet = Fault e /\
    isinstance e TonCenterClientError = true /\
    get_wallet gw env source_wallet_mnemonic (source_wallet_version args) w =
      Some (Raised e, w') /\
    resolving w w'.
Proof.
  intros Hf.
  destruct (retry_all_faults (RETRIEVE_RETRY_ATTEMPTS env)
              (RETRIEVE_RETRY_WAIT env) true
              (get_wallet_fn gw source_wallet_mnemonic
                 (source_wallet_version args)) n_get_state
              (fun k => client_error (wallet_get_state gw k the_wallet))
              resolving resolving_refl resolving_trans) with (w := w)
    as (e & w' & He & Hrun & _ & HR).
  - intros. now apply resolving_emit.
  - intros. now apply resolving_emit.
  - reflexivity.
  - intros w0 e H. apply client_error_fault in H. destruct H as [H He].
    split; [exact He|]. eexists. split; [|split].
    + unfold get_wallet_fn, bind, Wallet_get_state. cbn. rewrite H. reflexivity.
    + reflexivity.
    + split; [|reflexivity]. eexists [_]. split; reflexivity.
  - intros i Hi. destruct (Hf i Hi) as (e & H & He). rewrite H. cbn.
    rewrite He. discriminate.
  - apply client_error_fault in He. destruct He as [He Ht].
    exists e, w'. split; [exact He|]. split; [exact Ht|].
    split; [exact Hrun | exact HR].
Qed.

(** A retried error that leaves a resolver ends the run with [exit(3)]. *)
Lemma resolve_jetton_raised w e w1 :
  get_jetton gw env (jetton_address args) w = Some (Raised e, w1) ->
  isinstance e TonCenterClientError = true ->
  resolved_by w =
  Some (Raised (SystemExit 3), emit (LogError CannotGetJettonOrWallet) w1).
Proof.
  intros H He. unfold resolve, try_except, bind. rewrite H, He. reflexivity.
Qed.

Lemma resolve_wallet_raised w j w1 e w2 :
  get_jetton gw env (jetton_address args) w = Some (Returned j, w1) ->
  get_wallet gw env source_wallet_mnemonic (source_wallet_version args) w1 =
    Some (Raised e, w2) ->
  isinstance e TonCenterClientError = true ->
  resolved_by w =
  Some (Raised (SystemExit 3), emit (LogError CannotGetJettonOrWallet) w2).
Proof.
  intros H H2 He. unfold resolve, try_except, bind. rewrite H, H2, He.
  reflexivity.
Qed.

End Resolution.

(** ** What a send leaves in the world *)

Section SendSteps.

Variables (gw : Gateway) (env : RetryEnv).
Variables (source_wallet : Wallet) (jetton : Jetton).
Variables (amount : Z) (fee : float) (sleep_seconds : Z).

Local Abbreviation send_fn d :=
  (send_jetton_fn gw source_wallet d jetton amount fee sleep_seconds).
Local Abbreviation send d :=
  (send_jetton gw env source_wallet d jetton amount fee sleep_seconds).
Local Abbreviation request d :=
  (request_for source_wallet jetton amount fee d).

Ltac attempt_cases d w H :=
  let E := fresh "E" in
  destruct (send_fn_cases gw source_wallet jetton amount fee sleep_seconds d w)
    as [(?c & _ & ?Hs & E)|[(?c & ?x & _ & ?Hs & E)|
        [(?e & _ & _ & E)|(?e & _ & _ & E)]]];
  rewrite E in H; inversion H; subst; clear H E.

Lemma send_fn_not_get_state d : steps (only not_get_state) (send_fn d).
Proof.
  intros w r w' H. attempt_cases d w H.
  - eexists [_; _; _]. split; reflexivity.
  - eexists [_; _; _]. split; reflexivity.
  - eexists [_; _]. split; reflexivity.
  - eexists [_; _]. split; reflexivity.
Qed.

Lemma send_not_get_state d : steps (only not_get_state) (send d).
Proof.
  apply attempts_steps.
  - apply only_trans.
  - intros. now apply only_emit.
  - intros. now apply only_emit.
  - apply send_fn_not_get_state.
Qed.

Lemma send_fn_paced d :
  sleep_always_accepted gw sleep_seconds -> steps paced (send_fn d).
Proof.
  intros Hsl w r w' H.
  attempt_cases d w H; unfold paced, count; cbn; try lia.
  rewrite (Hsl w) in Hs. discriminate.
Qed.

Lemma send_paced d :
  sleep_always_accepted gw sleep_seconds -> steps paced (send d).
Proof.
  intros Hsl. apply attempts_steps.
  - apply paced_trans.
  - intros. now apply paced_emit.
  - intros. now apply paced_emit.
  - now apply send_fn_paced.
Qed.

Lemma requested_trans req w1 w2 w3 :
  requested req w1 w2 -> requested req w2 w3 -> requested req w1 w3.
Proof.
  intros (e1 & k1 & G1 & K1 & Q1 & N1) (e2 & k2 & G2 & K2 & Q2 & N2).
  exists (e2 ++ e1)%list, (k2 + k1)%nat. repeat split.
  - unfold grows in *. now rewrite G2, G1, app_assoc.
  - lia.
  - unfold transfer_requests in *. rewrite flat_map_app, Q1, Q2.
    now rewrite repeat_app.
  - lia.
Qed.

Lemma requested_emit req w1 w2 ev :
  is_transfer ev = false -> requested req w1 w2 -> requested req w1 (emit ev w2).
Proof.
  intros Hev (e1 & k1 & G1 & K1 & Q1 & N1). exists (ev :: e1), k1.
  repeat split; auto.
  - unfold grows in *. cbn. now rewrite G1.
  - unfold transfer_requests in *. cbn [flat_map]. rewrite Q1.
    destruct ev; try discriminate; reflexivity.
Qed.

Lemma send_fn_requested d : steps (requested (request d)) (send_fn d).
Proof.
  intros w r w' H.
  attempt_cases d w H;
    [eexists [_; _; _] | eexists [_; _; _] | eexists [_; _] | eexists [_; _]];
    exists 1%nat; repeat split; try reflexivity; cbn; lia.
Qed.

Lemma send_requested d : steps (requested (request d)) (send d).
Proof.
  apply attempts_steps.
  - apply requested_trans.
  - intros. now apply requested_emit.
  - intros. now apply requested_emit.
  - apply send_fn_requested.
Qed.

End SendSteps.

(** ** The activation check *)

Lemma forallb_not_sending_not_transfer evs :
  forallb not_sending evs = true -> forallb not_transfer evs = true.
Proof.
  induction evs as [|ev evs IH]; cbn; [auto|].
  intros H. apply andb_true_iff in H. destruct H as [Hev H].
  rewrite (IH H), andb_true_r. unfold not_sending in Hev.
  apply andb_true_iff in Hev. destruct Hev as [Hev _].
  apply andb_true_iff in Hev. now destruct Hev as [Hev _].
Qed.

Lemma send_all_not_get_state gw env args wallet jetton dests :
  steps (only not_get_state) (send_all gw env args wallet jetton dests).
Proof.
  apply steps_for_each.
  - apply only_refl.
  - apply only_trans.
  - intro d. apply send_not_get_state.
Qed.

Lemma main_exit_4 gw env args mn dests w jetton wallet state w1 :
  resolve gw env args mn w = Some (Returned (jetton, (wallet, state)), w1) ->
  state <> WalletState.active ->
  main gw env args mn dests w =
    Some (Raised (SystemExit 4),
          emit (LogError (SourceWalletNotActive wallet)) w1) /\
  n_transfer (emit (LogError (SourceWalletNotActive wallet)) w1) =
    n_transfer w /\
  filter is_transfer
    (events (emit (LogError (SourceWalletNotActive wallet)) w1)) =
    filter is_transfer (events w).
Proof.
  intros H Hst. rewrite (main_resolved _ _ _ _ _ _ _ _ _ _ H).
  apply String.eqb_neq in Hst. rewrite Hst.
  apply resolve_steps in H. apply resolving_transfers in H.
  destruct H as (H1 & _ & _ & H2). cbn. auto.
Qed.

(** C3: when the state fetched for the source wallet is not active, the
    run ends with exit status 4 and no transfer is submitted; and in every
    run the wallet state is fetched, and so compared, before the first
    transfer: no fetch of it follows a transfer. *)
Theorem inactive_wallet_submits_nothing :
  forall gw env args mn dests w jetton wallet state w1,
    resolve gw env args mn w = Some (Returned (jetton, (wallet, state)), w1) ->
    (state <> WalletState.active ->
     exists w',
       main gw env args mn dests w = Some (Raised (SystemExit 4), w') /\
       run_status (main gw env args mn dests w) = Some 4 /\
       n_transfer w' = n_transfer w /\
       filter is_transfer (events w') = filter is_transfer (events w)) /\
    (forall r w',
       main gw env args mn dests w = Some (r, w') ->
       exists before after,
         events w1 = (before ++ events w)%list /\
         events w' = (after ++ events w1)%list /\
         forallb not_transfer before = true /\
         forallb not_get_state after = true).
Proof.
  intros gw env args mn dests w jetton wallet state w1 H. split.
  - intros Hst.
    destruct (main_exit_4 _ _ _ _ dests _ _ _ _ _ H Hst) as (Hm & Hn & Hf).
    exists (emit (LogError (SourceWalletNotActive wallet)) w1).
    rewrite Hm. repeat split; assumption.
  - intros r w' Hrun.
    pose proof (resolve_steps _ _ _ _ _ _ _ H) as [(before & Hb & Qb) _].
    exists before.
    rewrite (main_resolved _ _ _ _ _ _ _ _ _ _ H) in Hrun.
    destruct (String.eqb state WalletState.active).
    + apply send_all_not_get_state in Hrun.
      destruct Hrun as (after & Ha & Qa). exists after.
      repeat split; auto. now apply forallb_not_sending_not_transfer.
    + inversion Hrun; subst. eexists [_].
      repeat split; auto. now apply forallb_not_sending_not_transfer.
Qed.

Lemma inactive_wallet_submits_nothing_witness :
  exists w',
    main (Examples.gw_state "inactive") Examples.env Examples.args
      Examples.words ["EQa"; "EQb"] world0 = Some (Raised (SystemExit 4), w') /\
    run_status
      (main (Examples.gw_state "inactive") Examples.env Examples.args
         Examples.words ["EQa"; "EQb"] world0) = Some 4 /\
    n_transfer w' = n_transfer world0 /\
    filter is_transfer (events w') = filter is_transfer (events world0).
Proof.
  eapply (inactive_wallet_submits_nothing (Examples.gw_state "inactive")
            Examples.env Examples.args Examples.words ["EQa"; "EQb"] world0).
  - vm_compute. reflexivity.
  - discriminate.
Defined.

(** C9: the activation check compares the fetched state with the string
    "active" and with nothing else.  Whatever other string the gateway
    returns, one of the declared variants or not, the run ends with exit
    status 4 and without a transfer; with "active" the loop starts in the
    world the resolution left. *)
Theorem activation_check_is_string_equality :
  forall gw env args mn dests w jetton wallet state w1,
    resolve gw env args mn w = Some (Returned (jetton, (wallet, state)), w1) ->
    (state <> "active" ->
     exists w',
       main gw env args mn dests w = Some (Raised (SystemExit 4), w') /\
       run_status (main gw env args mn dests w) = Some 4 /\
       n_transfer w' = n_transfer w /\
       filter is_transfer (events w') = filter is_transfer (events w)) /\
    (state = "active" ->
     main gw env args mn dests w = send_all gw env args wallet jetton dests w1).
Proof.
  intros gw env args mn dests w jetton wallet state w1 H. split.
  - intros Hst.
    destruct (main_exit_4 _ _ _ _ dests _ _ _ _ _ H Hst) as (Hm & Hn & Hf).
    exists (emit (LogError (SourceWalletNotActive wallet)) w1).
    rewrite Hm. repeat split; assumption.
  - intros ->. now rewrite (main_resolved _ _ _ _ _ _ _ _ _ _ H).
Qed.

Lemma activation_check_is_string_equality_witness :
  ~ In "frozen" [WalletState.active; WalletState.inactive; WalletState.notinit]
  /\
  exists w',
    main (Examples.gw_state "frozen") Examples.env Examples.args
      Examples.words ["EQa"; "EQb"] world0 = Some (Raised (SystemExit 4), w') /\
    run_status
      (main (Examples.gw_state "frozen") Examples.env Examples.args
         Examples.words ["EQa"; "EQb"] world0) = Some 4 /\
    n_transfer w' = n_transfer world0 /\
    filter is_transfer (events w') = filter is_transfer (events world0).
Proof.
  split.
  - cbn. intros [H|[H|[H|[]]]]; discriminate.
  - eapply (activation_check_is_string_equality (Examples.gw_state "frozen")
              Examples.env Examples.args Examples.words ["EQa"; "EQb"] world0).
    + vm_compute. reflexivity.
    + discriminate.
Defined.

(** C4: when every attempt to fetch the jetton, or (the jetton fetched)
    every attempt to fetch the wallet state, fails with a
    [TonCenterClientError], the resolver raises the error of its last
    attempt, the run ends with exit status 3, and no transfer is
    submitted. *)
Theorem resolution_exhaustion_exits_3 :
  forall gw env args mn dests w,
    (jetton_unavailable gw env (jetton_address args) (n_update w) \/
     exists jetton w1,
       get_jetton gw env (jetton_address args) w = Some (Returned jetton, w1) /\
       wallet_unavailable gw env (mkWallet mn (source_wallet_version args))
         (n_get_state w1)) ->
    let last := Z.to_nat (attempt_bound (RETRIEVE_RETRY_ATTEMPTS env) - 1) in
    (exists e w1,
       (jetton_update gw (n_update w + last) (jetton_address args) = Fault e /\
        get_jetton gw env (jetton_address args) w = Some (Raised e, w1)) \/
       (exists jetton w0,
          get_jetton gw env (jetton_address args) w =
            Some (Returned jetton, w0) /\
          wallet_get_state gw (n_get_state w0 + last)
            (mkWallet mn (source_wallet_version args)) = Fault e /\
          get_wallet gw env mn (source_wallet_version args) w0 =
            Some (Raised e, w1))) /\
    exists w',
      main gw env args mn dests w = Some (Raised (SystemExit 3), w') /\
      run_status (main gw env args mn dests w) = Some 3 /\
      n_transfer w' = n_transfer w /\
      filter is_transfer (events w') = filter is_transfer (events w).
Proof.
  intros gw env args mn dests w Hyp last.
  assert (exists w', resolve gw env args mn w = Some (Raised (SystemExit 3), w')
          /\ exists e w1,
       (jetton_update gw (n_update w + last) (jetton_address args) = Fault e /\
        get_jetton gw env (jetton_address args) w = Some (Raised e, w1)) \/
       (exists jetton w0,
          get_jetton gw env (jetton_address args) w =
            Some (Returned jetton, w0) /\
          wallet_get_state gw (n_get_state w0 + last)
            (mkWallet mn (source_wallet_version args)) = Fault e /\
          get_wallet gw env mn (source_wallet_version args) w0 =
            Some (Raised e, w1))) as (w' & Hres & Hlast).
  { destruct Hyp as [Hj|(jetton & w0 & Hj & Hw)].
    - destruct (get_jetton_exhausted gw env args w Hj)
        as (e & w1 & Hf & He & Hrun & _).
      eexists. split.
      + eapply resolve_jetton_raised; eauto.
      + exists e, w1. left. auto.
    - destruct (get_wallet_exhausted gw env args mn w0 Hw)
        as (e & w1 & Hf & He & Hrun & _).
      eexists. split.
      + eapply resolve_wallet_raised; eauto.
      + exists e, w1. right. exists jetton, w0. auto. }
  split; [exact Hlast|].
  exists w'. rewrite (main_not_resolved _ _ _ _ dests _ _ _ Hres).
  apply resolve_steps in Hres. apply resolving_transfers in Hres.
  destruct Hres as (H1 & _ & _ & H2). repeat split; auto.
Qed.

Lemma resolution_exhaustion_exits_3_witness :
  jetton_unavailable Examples.gw_no_jetton Examples.env "EQmaster" 0 /\
  exists w',
    main Examples.gw_no_jetton Examples.env Examples.args Examples.words
      ["EQa"; "EQb"] world0 = Some (Raised (SystemExit 3), w') /\
    run_status
      (main Examples.gw_no_jetton Examples.env Examples.args Examples.words
         ["EQa"; "EQb"] world0) = Some 3 /\
    n_transfer w' = n_transfer world0 /\
    filter is_transfer (events w') = filter is_transfer (events world0).
Proof.
  assert (jetton_unavailable Examples.gw_no_jetton Examples.env "EQmaster" 0)
    as H.
  { intros i _. exists Examples.rate_limited. split; reflexivity. }
  split; [exact H|].
  apply (resolution_exhaustion_exits_3 Examples.gw_no_jetton Examples.env
           Examples.args Examples.words ["EQa"; "EQb"] world0).
  left. exact H.
Defined.

(** ** Sends that fail *)

Section FailedSends.

Variables (gw : Gateway) (env : RetryEnv).
Variables (source_wallet : Wallet) (jetton : Jetton).
Variables (amount : Z) (fee : float) (sleep_seconds : Z).

Local Abbreviation answer n d :=
  (wallet_transfer_jetton gw n source_wallet d (address jetton) amount fee).
Local Abbreviation called d w :=
  (transfer_called source_wallet d (address jetton) amount fee w).
Local Abbreviation send_fn d :=
  (send_jetton_fn gw source_wallet d jetton amount fee sleep_seconds).
Local Abbreviation send d :=
  (send_jetton gw env source_wallet d jetton amount fee sleep_seconds).
Local Abbreviation send_from d :=
  (retry_from (SEND_RETRY_ATTEMPTS env) (SEND_RETRY_WAIT env) false
     (send_fn d)).
Local Abbreviation faults d n k :=
  (transient_faults gw source_wallet jetton amount fee d n k).

Lemma quiet_counts evs :
  forallb quiet evs = true ->
  filter is_sleep evs = [] /\ filter is_sent evs = [].
Proof.
  induction evs as [|ev evs IH]; cbn; [auto|].
  intros H. apply andb_true_iff in H. destruct H as [Hev H].
  destruct (IH H) as [I1 I2]. unfold quiet in Hev.
  apply andb_true_iff in Hev. destruct Hev as [Hev _].
  apply andb_true_iff in Hev. destruct Hev as [H1 H2].
  apply negb_true_iff in H1, H2. rewrite H1, H2. auto.
Qed.

(** A rejection after [k] retried faults: the attempt that meets it returns
    and is the last one. *)
Lemma send_rejected_after d k w e :
  faults d (n_transfer w) k ->
  Z.of_nat k < attempt_bound (SEND_RETRY_ATTEMPTS env) ->
  answer (n_transfer w + k)%nat d = Fault e ->
  isinstance e GetMethodError = true ->
  exists wk evs,
    send_from d 1 w = send_from d (1 + Z.of_nat k) wk /\
    send_fn d wk =
      Some (Returned tt, emit (LogError (GetMethodErrorFor d e)) (called d wk)) /\
    send d w =
      Some (Returned tt, emit (LogError (GetMethodErrorFor d e)) (called d wk)) /\
    n_transfer wk = (n_transfer w + k)%nat /\
    grows evs w wk /\ forallb quiet evs = true.
Proof.
  intros Hf Hk He Hg. unfold attempt_bound in Hk.
  destruct (send_from_transient gw env source_wallet jetton amount fee
              sleep_seconds d k 1 w Hf ltac:(lia))
    as (wk & evs & Hrun & Hn & Hgr & Hq & _).
  rewrite <- Hn in He.
  pose proof (send_fn_rejected gw source_wallet jetton amount fee
                sleep_seconds d wk e He Hg) as Hfn.
  exists wk, evs. repeat split; auto.
  rewrite send_is_send_from, Hrun. now apply retry_from_returned.
Qed.

(** Retried faults on every attempt the bound allows: the decorator raises
    [RetryError] around the last of them. *)
Lemma send_exhausted d w :
  faults d (n_transfer w)
    (Z.to_nat (attempt_bound (SEND_RETRY_ATTEMPTS env))) ->
  exists e w',
    answer (n_transfer w +
            Z.to_nat (attempt_bound (SEND_RETRY_ATTEMPTS env) - 1))%nat d =
      Fault e /\
    is_transient e = true /\
    send d w = Some (Raised (RetryError e), w') /\
    In (LogError (CannotSend d e)) (events w') /\
    n_transfer w' =
      (n_transfer w + Z.to_nat (attempt_bound (SEND_RETRY_ATTEMPTS env)))%nat /\
    count is_sleep w' = count is_sleep w.
Proof.
  intros Hf. unfold attempt_bound in *.
  set (k := Z.to_nat (Z.max 1 (SEND_RETRY_ATTEMPTS env) - 1)).
  destruct (send_from_transient gw env source_wallet jetton amount fee
              sleep_seconds d k 1 w)
    as (wk & evs & Hrun & Hn & Hgr & Hq & _).
  { intros i Hi. apply Hf. lia. }
  { lia. }
  destruct (Hf k ltac:(lia)) as (e & He & Ht).
  pose proof Ht as Ht'. apply is_transient_split in Ht'.
  destruct Ht' as [Hc Hg]. rewrite <- Hn in He.
  pose proof (send_fn_failed gw source_wallet jetton amount fee
                sleep_seconds d wk e He Hg) as Hfn.
  exists e.
  exists (emit (LogInfo (FinishedCall (1 + Z.of_nat k)))
            (emit (LogError (CannotSend d e)) (called d wk))).
  repeat split.
  - rewrite <- Hn. exact He.
  - exact Ht.
  - rewrite send_is_send_from, Hrun.
    change (RetryError e) with (exhausted_error false e).
    apply retry_from_exhausted; [exact Hfn | exact Hc | lia].
  - cbn. auto.
  - cbn. rewrite Hn. lia.
  - unfold count. cbn. rewrite Hgr, filter_app.
    apply quiet_counts in Hq. destruct Hq as [-> _]. reflexivity.
Qed.

Lemma transient_faults_answers d k :
  forall n,
    faults d n k ->
    exists es,
      List.length es = k /\
      transient_answers gw source_wallet jetton amount fee d n es.
Proof.
  induction k as [|k IH]; intros n Hf.
  - exists []. split; [reflexivity|]. intros [|i] e H; discriminate.
  - destruct (Hf O ltac:(lia)) as (e0 & He0 & Ht0).
    destruct (IH (S n)) as (es & Hl & Hes).
    { intros i Hi. destruct (Hf (S i) ltac:(lia)) as (e & He & Ht).
      exists e. split; [|exact Ht]. rewrite <- He. f_equal. lia. }
    exists (e0 :: es). split; [cbn; now rewrite Hl|].
    intros [|i] e H; cbn in H.
    + inversion H; subst. auto.
    + destruct (Hes i e H) as [He Ht]. split; [|exact Ht].
      rewrite <- He. f_equal. lia.
Qed.

Lemma transient_answers_tail d n e es :
  transient_answers gw source_wallet jetton amount fee d n (e :: es) ->
  transient_answers gw source_wallet jetton amount fee d (S n) es.
Proof.
  intros H i x Hx. destruct (H (S i) x Hx) as [Hf Ht]. split; [|exact Ht].
  rewrite <- Hf. f_equal. lia.
Qed.

(** Retried faults, none of them at the last attempt allowed: the
    decorator goes on in the world [after_failures] describes. *)
Lemma send_from_failures d :
  forall es a w,
    transient_answers gw source_wallet jetton amount fee d (n_transfer w) es ->
    Z.of_nat (List.length es) <= Z.max 0 (SEND_RETRY_ATTEMPTS env - a) ->
    send_from d a w =
    send_from d (a + Z.of_nat (List.length es))
      (after_failures (SEND_RETRY_WAIT env) source_wallet d (address jetton)
         amount fee es a w).
Proof.
  induction es as [|e es IH]; intros a w Hf Hk.
  - cbn. now rewrite Z.add_0_r.
  - destruct (Hf O e eq_refl) as (He & Ht). rewrite Nat.add_0_r in He.
    apply is_transient_split in Ht. destruct Ht as [Ht Hg].
    pose proof (send_fn_failed gw source_wallet jetton amount fee
                  sleep_seconds d w e He Hg) as Hfn.
    cbn [List.length] in Hk.
    rewrite (retry_from_again _ _ _ _ a w e _ Hfn Ht) by lia.
    cbn [after_failures List.length]. rewrite IH.
    + f_equal. lia.
    + apply transient_answers_tail in Hf. exact Hf.
    + lia.
Qed.

Lemma after_failures_transfers wait d master es :
  forall a w,
    n_transfer (after_failures wait source_wallet d master amount fee es a w) =
    (n_transfer w + List.length es)%nat.
Proof.
  induction es as [|e es IH]; intros a w; cbn [after_failures List.length].
  - lia.
  - rewrite IH. cbn. lia.
Qed.

Lemma after_failures_keeps wait d master es ev :
  forall a w,
    In ev (events w) ->
    In ev (events (after_failures wait source_wallet d master amount fee
                     es a w)).
Proof.
  induction es as [|e es IH]; intros a w H; cbn [after_failures]; [exact H|].
  apply IH. cbn. auto.
Qed.

(** Every failed attempt left its error record. *)
Lemma after_failures_logged wait d master es x :
  forall a w,
    In x es ->
    In (LogError (CannotSend d x))
      (events (after_failures wait source_wallet d master amount fee es a w)).
Proof.
  induction es as [|e es IH]; intros a w H; [destruct H|].
  cbn [after_failures]. destruct H as [->|H].
  - apply after_failures_keeps. cbn. auto.
  - now apply IH.
Qed.

Lemma after_failures_grows wait d master es :
  forall a w,
    exists evs,
      grows evs w
        (after_failures wait source_wallet d master amount fee es a w) /\
      transfer_requests evs =
        repeat (source_wallet, d, master, amount, fee) (List.length es).
Proof.
  induction es as [|e es IH]; intros a w; cbn [after_failures List.length].
  - exists []. split; reflexivity.
  - destruct (IH (a + 1)
                (emit (RetryWait wait)
                   (emit (LogInfo (FinishedCall a))
                      (emit (LogError (CannotSend d e))
                         (transfer_called source_wallet d master amount fee
                            w))))) as (evs & Hg & Hq).
    exists (evs ++ [RetryWait wait; LogInfo (FinishedCall a);
                    LogError (CannotSend d e);
                    CallTransferJetton source_wallet d master amount fee])%list.
    split.
    + unfold grows in *. rewrite Hg, <- app_assoc. reflexivity.
    + unfold transfer_requests in *. rewrite flat_map_app, Hq. cbn.
      symmetry. apply (repeat_cons (List.length es)).
Qed.

End FailedSends.

(** ** The run at one position of the destination list *)

(** Once the resolution returned an active wallet and the destinations
    before a position were sent to, [main] goes on with the rest. *)
Lemma main_at_position gw env args mn pre rest w jetton wallet w1 w2 :
  resolve gw env args mn w =
    Some (Returned (jetton, (wallet, WalletState.active)), w1) ->
  send_all gw env args wallet jetton pre w1 = Some (Returned tt, w2) ->
  main gw env args mn (pre ++ rest) w =
  send_all gw env args wallet jetton rest w2.
Proof.
  intros H Hpre. rewrite (main_resolved _ _ _ _ _ _ _ _ _ _ H).
  cbn. now apply send_all_app_returned.
Qed.

(** C1, as the code has it: when every attempt the send bound allows fails
    with a retried gateway error, every one of the failures is logged and
    the decorator, which has no [reraise] and no error callback, raises
    [RetryError] around the error of the last attempt; nothing in [main]
    catches it, so it leaves [main], the run ends with status 1 and the
    destinations after this one are not sent to.  The faults [es] and [e]
    are the answers of the gateway in the order of the attempts, and the
    world the run ends in is spelled out. *)
Theorem send_exhaustion_aborts_run :
  forall gw env args mn pre d post w jetton wallet w1 w2,
    resolve gw env args mn w =
      Some (Returned (jetton, (wallet, WalletState.active)), w1) ->
    send_all gw env args wallet jetton pre w1 = Some (Returned tt, w2) ->
    transient_faults gw wallet jetton (jetton_send_amount args)
      (jetton_send_fee args) d (n_transfer w2)
      (Z.to_nat (attempt_bound (SEND_RETRY_ATTEMPTS env))) ->
    exists es e w',
      Z.of_nat (List.length (es ++ [e])) =
        attempt_bound (SEND_RETRY_ATTEMPTS env) /\
      transient_answers gw wallet jetton (jetton_send_amount args)
        (jetton_send_fee args) d (n_transfer w2) (es ++ [e]) /\
      w' =
        emit (LogInfo (FinishedCall (attempt_bound (SEND_RETRY_ATTEMPTS env))))
          (emit (LogError (CannotSend d e))
             (transfer_called wallet d (address jetton)
                (jetton_send_amount args) (jetton_send_fee args)
                (after_failures (SEND_RETRY_WAIT env) wallet d (address jetton)
                   (jetton_send_amount args) (jetton_send_fee args) es 1
                   w2))) /\
      send_jetton gw env wallet d jetton (jetton_send_amount args)
        (jetton_send_fee args) (jetton_send_sleep args) w2 =
        Some (Raised (RetryError e), w') /\
      (forall x, In x (es ++ [e]) ->
                 In (LogError (CannotSend d x)) (events w')) /\
      n_transfer w' =
        (n_transfer w2 +
         Z.to_nat (attempt_bound (SEND_RETRY_ATTEMPTS env)))%nat /\
      main gw env args mn (pre ++ d :: post) w =
        Some (Raised (RetryError e), w') /\
      run_status (main gw env args mn (pre ++ d :: post) w) = Some 1.
Proof.
  intros gw env args mn pre d post w jetton wallet w1 w2 H Hpre Hf.
  destruct (transient_faults_answers gw wallet jetton _ _ d _ _ Hf)
    as (all & Hlen & Hall).
  assert (all <> []) as Hne.
  { intros ->. cbn in Hlen. unfold attempt_bound in Hlen. lia. }
  destruct (exists_last Hne) as (es & e & ->).
  set (bound := attempt_bound (SEND_RETRY_ATTEMPTS env)) in *.
  assert (Z.of_nat (List.length (es ++ [e])) = bound) as Hb.
  { rewrite Hlen. unfold bound, attempt_bound. lia. }
  assert (Z.of_nat (List.length es) = bound - 1) as Hes.
  { rewrite length_app in Hb. cbn in Hb. lia. }
  set (wk := after_failures (SEND_RETRY_WAIT env) wallet d (address jetton)
               (jetton_send_amount args) (jetton_send_fee args) es 1 w2).
  assert (transient_answers gw wallet jetton (jetton_send_amount args)
            (jetton_send_fee args) d (n_transfer w2) es) as Hpref.
  { intros i x Hx. apply Hall. rewrite nth_error_app1; [exact Hx|].
    apply nth_error_Some. congruence. }
  pose proof (send_from_failures gw env wallet jetton _ _
                (jetton_send_sleep args) d es 1 w2 Hpref) as Hrun.
  fold wk in Hrun.
  assert (n_transfer wk = (n_transfer w2 + List.length es)%nat) as Hn.
  { apply after_failures_transfers. }
  destruct (Hall (List.length es) e) as [He Ht].
  { rewrite nth_error_app2 by lia. now rewrite Nat.sub_diag. }
  rewrite <- Hn in He.
  pose proof Ht as Ht'. apply is_transient_split in Ht'.
  destruct Ht' as [Hc Hg].
  pose proof (send_fn_failed gw wallet jetton _ _
                (jetton_send_sleep args) d wk e He Hg) as Hfn.
  assert (send_jetton gw env wallet d jetton (jetton_send_amount args)
            (jetton_send_fee args) (jetton_send_sleep args) w2 =
          Some (Raised (RetryError e),
                emit (LogInfo (FinishedCall bound))
                  (emit (LogError (CannotSend d e))
                     (transfer_called wallet d (address jetton)
                        (jetton_send_amount args) (jetton_send_fee args) wk))))
    as Hsend.
  { rewrite send_is_send_from, Hrun.
    - change (RetryError e) with (exhausted_error false e).
      replace bound with (1 + Z.of_nat (List.length es)) by lia.
      apply retry_from_exhausted; [exact Hfn | exact Hc |].
      unfold bound, attempt_bound in *. lia.
    - unfold bound, attempt_bound in *. lia. }
  exists es, e. eexists. split; [exact Hb|]. split; [exact Hall|].
  split; [reflexivity|]. fold wk. split; [exact Hsend|].
  assert (main gw env args mn (pre ++ d :: post) w =
          Some (Raised (RetryError e),
                emit (LogInfo (FinishedCall bound))
                  (emit (LogError (CannotSend d e))
                     (transfer_called wallet d (address jetton)
                        (jetton_send_amount args) (jetton_send_fee args) wk))))
    as Hm.
  { rewrite (main_at_position _ _ _ _ _ _ _ _ _ _ _ H Hpre).
    now apply send_all_raised. }
  split; [|split; [|split]].
  - intros x Hx. apply in_app_or in Hx. cbn [events emit transfer_called].
    destruct Hx as [Hx|[<-|[]]].
    + right. right. right. now apply after_failures_logged.
    + right. left. reflexivity.
  - cbn. rewrite Hn. unfold bound in *. lia.
  - exact Hm.
  - now rewrite Hm.
Qed.

Lemma send_exhaustion_aborts_run_witness :
  exists es e w',
    Z.of_nat (List.length (es ++ [e])) = attempt_bound 2 /\
    transient_answers (Examples.gw_fault "EQb" Examples.rate_limited)
      Examples.wallet Examples.jetton 10 0.5%float "EQb"
      (n_transfer Examples.sent_first) (es ++ [e]) /\
    w' =
      emit (LogInfo (FinishedCall (attempt_bound 2)))
        (emit (LogError (CannotSend "EQb" e))
           (transfer_called Examples.wallet "EQb" "EQmaster" 10 0.5%float
              (after_failures 5 Examples.wallet "EQb" "EQmaster" 10 0.5%float
                 es 1 Examples.sent_first))) /\
    send_jetton (Examples.gw_fault "EQb" Examples.rate_limited) Examples.env
      Examples.wallet "EQb" Examples.jetton 10 0.5%float 60
      Examples.sent_first =
      Some (Raised (RetryError e), w') /\
    (forall x, In x (es ++ [e]) ->
               In (LogError (CannotSend "EQb" x)) (events w')) /\
    n_transfer w' =
      (n_transfer Examples.sent_first + Z.to_nat (attempt_bound 2))%nat /\
    main (Examples.gw_fault "EQb" Examples.rate_limited) Examples.env
      Examples.args Examples.words (["EQa"] ++ "EQb" :: ["EQc"]) world0 =
      Some (Raised (RetryError e), w') /\
    run_status
      (main (Examples.gw_fault "EQb" Examples.rate_limited) Examples.env
         Examples.args Examples.words (["EQa"] ++ "EQb" :: ["EQc"]) world0) =
      Some 1.
Proof.
  apply (send_exhaustion_aborts_run
           (Examples.gw_fault "EQb" Examples.rate_limited) Examples.env
           Examples.args Examples.words ["EQa"] "EQb" ["EQc"] world0
           Examples.jetton Examples.wallet Examples.resolved
           Examples.sent_first).
  - vm_compute. reflexivity.
  - vm_compute. reflexivity.
  - intros i _. exists Examples.rate_limited. split; reflexivity.
Defined.

(** C1 fails as stated: the second of three destinations is rate limited
    on both attempts the bound allows; [main] raises [RetryError], the run
    ends with status 1 and the third destination is never sent to. *)
Lemma send_exhaustion_not_recovered :
  transient_faults (Examples.gw_fault "EQb" Examples.rate_limited)
    Examples.wallet Examples.jetton 10 0.5%float "EQb" 1
    (Z.to_nat (attempt_bound (SEND_RETRY_ATTEMPTS Examples.env))) /\
  exists w',
    main (Examples.gw_fault "EQb" Examples.rate_limited) Examples.env
      Examples.args Examples.words ["EQa"; "EQb"; "EQc"] world0 =
      Some (Raised (RetryError Examples.rate_limited), w') /\
    run_status
      (main (Examples.gw_fault "EQb" Examples.rate_limited) Examples.env
         Examples.args Examples.words ["EQa"; "EQb"; "EQc"] world0) =
      Some 1 /\
    map (fun q => snd (fst (fst (fst q)))) (transfer_requests (history w')) =
      ["EQa"; "EQb"; "EQb"].
Proof.
  split.
  - intros i _. exists Examples.rate_limited. split; reflexivity.
  - eexists. split; [vm_compute; reflexivity|]. split; reflexivity.
Qed.

(** C2: an error of the transfer at one position that is neither a
    [TonCenterClientError] nor a [GetMethodError], met at the first attempt
    or after retried faults below the bound: the [except BaseException]
    clause logs it and raises it again, the decorator does not retry it,
    and [main] has no handler around the loop, so the error leaves [main]
    in the world of that attempt.  The request that failed is the last
    request of the run: no later destination is sent to. *)
Theorem unclassified_send_error_stops_run :
  forall gw env args mn pre d post w jetton wallet w1 w2 es e,
    resolve gw env args mn w =
      Some (Returned (jetton, (wallet, WalletState.active)), w1) ->
    send_all gw env args wallet jetton pre w1 = Some (Returned tt, w2) ->
    transient_answers gw wallet jetton (jetton_send_amount args)
      (jetton_send_fee args) d (n_transfer w2) es ->
    Z.of_nat (List.length es) < attempt_bound (SEND_RETRY_ATTEMPTS env) ->
    wallet_transfer_jetton gw (n_transfer w2 + List.length es) wallet d
      (address jetton) (jetton_send_amount args) (jetton_send_fee args) =
      Fault e ->
    isinstance e TonCenterClientError = false ->
    isinstance e GetMethodError = false ->
    exists w',
      w' =
        emit (LogError (CannotSend d e))
          (transfer_called wallet d (address jetton)
             (jetton_send_amount args) (jetton_send_fee args)
             (after_failures (SEND_RETRY_WAIT env) wallet d (address jetton)
                (jetton_send_amount args) (jetton_send_fee args) es 1 w2)) /\
      send_jetton gw env wallet d jetton (jetton_send_amount args)
        (jetton_send_fee args) (jetton_send_sleep args) w2 =
        Some (Raised e, w') /\
      main gw env args mn (pre ++ d :: post) w = Some (Raised e, w') /\
      n_transfer w' = (n_transfer w2 + List.length es + 1)%nat /\
      requested
        (request_for wallet jetton (jetton_send_amount args)
           (jetton_send_fee args) d) w2 w'.
Proof.
  intros gw env args mn pre d post w jetton wallet w1 w2 es e
    H Hpre Hes Hk He Hc Hg.
  set (wk := after_failures (SEND_RETRY_WAIT env) wallet d (address jetton)
               (jetton_send_amount args) (jetton_send_fee args) es 1 w2).
  assert (n_transfer wk = (n_transfer w2 + List.length es)%nat) as Hn.
  { apply after_failures_transfers. }
  rewrite <- Hn in He.
  pose proof (send_fn_failed gw wallet jetton _ _
                (jetton_send_sleep args) d wk e He Hg) as Hfn.
  assert (send_jetton gw env wallet d jetton (jetton_send_amount args)
            (jetton_send_fee args) (jetton_send_sleep args) w2 =
          Some (Raised e,
                emit (LogError (CannotSend d e))
                  (transfer_called wallet d (address jetton)
                     (jetton_send_amount args) (jetton_send_fee args) wk)))
    as Hsend.
  { rewrite send_is_send_from.
    rewrite (send_from_failures gw env wallet jetton _ _
               (jetton_send_sleep args) d es 1 w2 Hes).
    - fold wk. apply retry_from_rejected; [exact Hfn | exact Hc].
    - unfold attempt_bound in Hk. lia. }
  eexists. split; [reflexivity|]. fold wk. split; [exact Hsend|]. split.
  - rewrite (main_at_position _ _ _ _ _ _ _ _ _ _ _ H Hpre).
    now apply send_all_raised.
  - split; [cbn; rewrite Hn; lia|].
    eapply send_requested. exact Hsend.
Qed.

Lemma unclassified_send_error_stops_run_witness :
  exists w',
    w' =
      emit (LogError (CannotSend "EQb" Examples.broken_pipe))
        (transfer_called Examples.wallet "EQb" "EQmaster" 10 0.5%float
           (after_failures 5 Examples.wallet "EQb" "EQmaster" 10 0.5%float
              [] 1 Examples.sent_first)) /\
    send_jetton (Examples.gw_fault "EQb" Examples.broken_pipe) Examples.env
      Examples.wallet "EQb" Examples.jetton 10 0.5%float 60
      Examples.sent_first = Some (Raised Examples.broken_pipe, w') /\
    main (Examples.gw_fault "EQb" Examples.broken_pipe) Examples.env
      Examples.args Examples.words (["EQa"] ++ "EQb" :: ["EQc"]) world0 =
      Some (Raised Examples.broken_pipe, w') /\
    n_transfer w' = (n_transfer Examples.sent_first + 0 + 1)%nat /\
    requested (request_for Examples.wallet Examples.jetton 10 0.5%float "EQb")
      Examples.sent_first w'.
Proof.
  apply (unclassified_send_error_stops_run
           (Examples.gw_fault "EQb" Examples.broken_pipe) Examples.env
           Examples.args Examples.words ["EQa"] "EQb" ["EQc"] world0
           Examples.jetton Examples.wallet Examples.resolved
           Examples.sent_first [] Examples.broken_pipe).
  - vm_compute. reflexivity.
  - vm_compute. reflexivity.
  - intros [|i] x Hx; discriminate.
  - reflexivity.
  - reflexivity.
  - reflexivity.
  - reflexivity.
Defined.

(** C5: a destination whose transfer is answered with a [GetMethodError],
    after any number of retried faults below the bound: the error is
    logged as the last event of the send, no sleep happened during the
    send, the loop goes on with the next destination, and when the rest of
    the loop returns the run ends with exit status 0. *)
Theorem method_rejection_skips_destination :
  forall gw env args mn pre d post w jetton wallet w1 w2 k e,
    resolve gw env args mn w =
      Some (Returned (jetton, (wallet, WalletState.active)), w1) ->
    send_all gw env args wallet jetton pre w1 = Some (Returned tt, w2) ->
    transient_faults gw wallet jetton (jetton_send_amount args)
      (jetton_send_fee args) d (n_transfer w2) k ->
    Z.of_nat k < attempt_bound (SEND_RETRY_ATTEMPTS env) ->
    wallet_transfer_jetton gw (n_transfer w2 + k) wallet d (address jetton)
      (jetton_send_amount args) (jetton_send_fee args) = Fault e ->
    isinstance e GetMethodError = true ->
    exists w3 evs,
      send_jetton gw env wallet d jetton (jetton_send_amount args)
        (jetton_send_fee args) (jetton_send_sleep args) w2 =
        Some (Returned tt, w3) /\
      events w3 = (LogError (GetMethodErrorFor d e) :: evs ++ events w2)%list /\
      filter is_sleep evs = [] /\
      count is_sleep w3 = count is_sleep w2 /\
      main gw env args mn (pre ++ d :: post) w =
        send_all gw env args wallet jetton post w3 /\
      (forall w4,
         send_all gw env args wallet jetton post w3 = Some (Returned tt, w4) ->
         run_status (main gw env args mn (pre ++ d :: post) w) = Some 0).
Proof.
  intros gw env args mn pre d post w jetton wallet w1 w2 k e
    H Hpre Hf Hk He Hg.
  destruct (send_rejected_after gw env wallet jetton _ _
              (jetton_send_sleep args) d k w2 e Hf Hk He Hg)
    as (wk & evs & _ & _ & Hsend & Hn & Hgr & Hq).
  apply quiet_counts in Hq. destruct Hq as [Hsl _].
  assert (main gw env args mn (pre ++ d :: post) w =
          send_all gw env args wallet jetton post
            (emit (LogError (GetMethodErrorFor d e))
               (transfer_called wallet d (address jetton)
                  (jetton_send_amount args) (jetton_send_fee args) wk)))
    as Hm.
  { rewrite (main_at_position _ _ _ _ _ _ _ _ _ _ _ H Hpre).
    now apply send_all_returned. }
  exists (emit (LogError (GetMethodErrorFor d e))
            (transfer_called wallet d (address jetton)
               (jetton_send_amount args) (jetton_send_fee args) wk)).
  exists (CallTransferJetton wallet d (address jetton)
            (jetton_send_amount args) (jetton_send_fee args) :: evs).
  repeat split.
  - exact Hsend.
  - cbn. now rewrite Hgr.
  - cbn. exact Hsl.
  - unfold count. cbn. now rewrite Hgr, filter_app, Hsl.
  - exact Hm.
  - intros w4 H4. now rewrite Hm, H4.
Qed.

Lemma method_rejection_skips_destination_witness :
  exists w3 evs,
    send_jetton (Examples.gw_fault "EQb" Examples.no_get_method) Examples.env
      Examples.wallet "EQb" Examples.jetton 10 0.5%float 60
      Examples.sent_first =
      Some (Returned tt, w3) /\
    events w3 =
      (LogError (GetMethodErrorFor "EQb" Examples.no_get_method) :: evs ++
       events Examples.sent_first)%list /\
    filter is_sleep evs = [] /\
    count is_sleep w3 = count is_sleep Examples.sent_first /\
    main (Examples.gw_fault "EQb" Examples.no_get_method) Examples.env
      Examples.args Examples.words (["EQa"] ++ "EQb" :: ["EQc"]) world0 =
      send_all (Examples.gw_fault "EQb" Examples.no_get_method) Examples.env
        Examples.args Examples.wallet Examples.jetton ["EQc"] w3 /\
    (forall w4,
       send_all (Examples.gw_fault "EQb" Examples.no_get_method) Examples.env
         Examples.args Examples.wallet Examples.jetton ["EQc"] w3 =
         Some (Returned tt, w4) ->
       run_status
         (main (Examples.gw_fault "EQb" Examples.no_get_method) Examples.env
            Examples.args Examples.words (["EQa"] ++ "EQb" :: ["EQc"])
            world0) = Some 0).
Proof.
  apply (method_rejection_skips_destination
           (Examples.gw_fault "EQb" Examples.no_get_method) Examples.env
           Examples.args Examples.words ["EQa"] "EQb" ["EQc"] world0
           Examples.jetton Examples.wallet Examples.resolved
           Examples.sent_first 0%nat Examples.no_get_method).
  - vm_compute. reflexivity.
  - vm_compute. reflexivity.
  - intros i Hi. lia.
  - reflexivity.
  - reflexivity.
  - reflexivity.
Defined.

(** C10: a [GetMethodError] never starts a retry.  On whichever attempt
    the gateway answers with it, [send_jetton]'s [except] clause catches it,
    so the decorated function returns from that attempt: the rejected call
    is the last call and the error record the last event (no record of the
    decorator, no wait after it), and [send_jetton] returns the same value
    as for a destination that was sent to (a transfer accepted and a delay
    [time.sleep] did not refuse). *)
Theorem method_rejection_is_not_retried :
  forall gw env wallet jetton amount fee sleep_seconds d w k e,
    transient_faults gw wallet jetton amount fee d (n_transfer w) k ->
    Z.of_nat k < attempt_bound (SEND_RETRY_ATTEMPTS env) ->
    wallet_transfer_jetton gw (n_transfer w + k) wallet d (address jetton)
      amount fee = Fault e ->
    isinstance e GetMethodError = true ->
    exists wk w',
      retry_from (SEND_RETRY_ATTEMPTS env) (SEND_RETRY_WAIT env) false
        (send_jetton_fn gw wallet d jetton amount fee sleep_seconds) 1 w =
      retry_from (SEND_RETRY_ATTEMPTS env) (SEND_RETRY_WAIT env) false
        (send_jetton_fn gw wallet d jetton amount fee sleep_seconds)
        (1 + Z.of_nat k) wk /\
      send_jetton_fn gw wallet d jetton amount fee sleep_seconds wk =
        Some (Returned tt, w') /\
      send_jetton gw env wallet d jetton amount fee sleep_seconds w =
        Some (Returned tt, w') /\
      n_transfer w' = (n_transfer w + k + 1)%nat /\
      events w' =
        LogError (GetMethodErrorFor d e)
        :: CallTransferJetton wallet d (address jetton) amount fee
        :: events wk /\
      (forall w0 c,
         wallet_transfer_jetton gw (n_transfer w0) wallet d (address jetton)
           amount fee = Reply c ->
         sleep_error gw w0 sleep_seconds = None ->
         exists w0',
           send_jetton gw env wallet d jetton amount fee sleep_seconds w0 =
           Some (Returned tt, w0')).
Proof.
  intros gw env wallet jetton amount fee sleep_seconds d w k e Hf Hk He Hg.
  destruct (send_rejected_after gw env wallet jetton amount fee sleep_seconds
              d k w e Hf Hk He Hg)
    as (wk & evs & Hfrom & Hfn & Hsend & Hn & _ & _).
  exists wk.
  exists (emit (LogError (GetMethodErrorFor d e))
            (transfer_called wallet d (address jetton) amount fee wk)).
  repeat split; auto.
  - cbn. rewrite Hn. lia.
  - intros w0 c Hc Hs. eexists.
    rewrite send_is_send_from. apply retry_from_returned.
    now apply send_fn_sent with (c := c).
Qed.

Lemma method_rejection_is_not_retried_witness :
  exists wk w',
    retry_from 2 5 false
      (send_jetton_fn Examples.gw_limited_then_rejected Examples.wallet "EQa"
         Examples.jetton 10 0.5%float 60) 1 Examples.resolved =
    retry_from 2 5 false
      (send_jetton_fn Examples.gw_limited_then_rejected Examples.wallet "EQa"
         Examples.jetton 10 0.5%float 60) (1 + Z.of_nat 1) wk /\
    send_jetton_fn Examples.gw_limited_then_rejected Examples.wallet "EQa"
      Examples.jetton 10 0.5%float 60 wk = Some (Returned tt, w') /\
    send_jetton Examples.gw_limited_then_rejected Examples.env Examples.wallet
      "EQa" Examples.jetton 10 0.5%float 60 Examples.resolved =
      Some (Returned tt, w') /\
    n_transfer w' = (n_transfer Examples.resolved + 1 + 1)%nat /\
    events w' =
      LogError (GetMethodErrorFor "EQa" Examples.no_get_method)
      :: CallTransferJetton Examples.wallet "EQa" "EQmaster" 10 0.5%float
      :: events wk /\
    (forall w0 c,
       wallet_transfer_jetton Examples.gw_limited_then_rejected
         (n_transfer w0) Examples.wallet "EQa" "EQmaster" 10 0.5%float =
         Reply c ->
       sleep_error Examples.gw_limited_then_rejected w0 60 = None ->
       exists w0',
         send_jetton Examples.gw_limited_then_rejected Examples.env
           Examples.wallet "EQa" Examples.jetton 10 0.5%float 60 w0 =
         Some (Returned tt, w0')).
Proof.
  apply (method_rejection_is_not_retried Examples.gw_limited_then_rejected
           Examples.env Examples.wallet Examples.jetton 10 0.5%float 60 "EQa"
           Examples.resolved 1%nat Examples.no_get_method).
  - intros i Hi. exists Examples.rate_limited.
    assert (i = 0%nat) as -> by lia. split; reflexivity.
  - reflexivity.
  - reflexivity.
  - reflexivity.
Defined.

(** ** Every run finishes *)

Lemma get_jetton_total gw env addr w : get_jetton gw env addr w <> None.
Proof.
  unfold get_jetton. rewrite retry_is_retry_from.
  eapply retry_from_total; [|reflexivity].
  intros w0. unfold get_jetton_fn, bind, Jetton_update. cbn.
  destruct (jetton_update gw (n_update w0) addr); discriminate.
Qed.

Lemma get_wallet_total gw env mn v w : get_wallet gw env mn v w <> None.
Proof.
  unfold get_wallet. rewrite retry_is_retry_from.
  eapply retry_from_total; [|reflexivity].
  intros w0. unfold get_wallet_fn, bind, Wallet_get_state. cbn.
  destruct (wallet_get_state gw (n_get_state w0) (mkWallet mn v)); discriminate.
Qed.

Lemma resolve_total gw env args mn w : resolve gw env args mn w <> None.
Proof.
  unfold resolve, try_except, bind.
  pose proof (get_jetton_total gw env (jetton_address args) w) as Hj.
  destruct (get_jetton gw env (jetton_address args) w)
    as [[[j|e] w1]|]; [| |congruence].
  - pose proof (get_wallet_total gw env mn (source_wallet_version args) w1)
      as Hw.
    destruct (get_wallet gw env mn (source_wallet_version args) w1)
      as [[[ws|e] w2]|]; [| |congruence].
    + discriminate.
    + destruct (isinstance e TonCenterClientError); discriminate.
  - destruct (isinstance e TonCenterClientError); discriminate.
Qed.

(** The fuel [retry] hands to the loop of attempts is enough: [main] always
    ends with an outcome. *)
Lemma main_total gw env args mn dests w :
  exists r w', main gw env args mn dests w = Some (r, w').
Proof.
  pose proof (resolve_total gw env args mn w) as Hr.
  destruct (resolve gw env args mn w) as [[[[j [wal st]]|e] w1]|] eqn:E;
    [| |congruence].
  - rewrite (main_resolved _ _ _ _ _ _ _ _ _ _ E).
    destruct (String.eqb st WalletState.active); [|eauto].
    pose proof (send_all_total gw env args wal j dests w1) as Hs.
    destruct (send_all gw env args wal j dests w1) as [[r w']|];
      [eauto|congruence].
  - rewrite (main_not_resolved _ _ _ _ _ _ _ _ E). eauto.
Qed.

(** ** The delay between sends *)

Lemma send_all_paced gw env args wallet jetton dests :
  sleep_always_accepted gw (jetton_send_sleep args) ->
  steps paced (send_all gw env args wallet jetton dests).
Proof.
  intros Hs. apply steps_for_each.
  - apply paced_refl.
  - apply paced_trans.
  - intro d. now apply send_paced.
Qed.

Lemma resolving_paced w w' : resolving w w' -> paced w w'.
Proof.
  intros H. apply resolving_transfers in H.
  destruct H as (_ & H1 & H2 & _). unfold paced. lia.
Qed.

Lemma main_paced gw env args mn dests :
  sleep_always_accepted gw (jetton_send_sleep args) ->
  steps paced (main gw env args mn dests).
Proof.
  intros Hs w r w' Hrun.
  destruct (resolve gw env args mn w) as [[[[j [wal st]]|e] w1]|] eqn:E.
  - rewrite (main_resolved _ _ _ _ _ _ _ _ _ _ E) in Hrun.
    apply resolve_steps, resolving_paced in E.
    destruct (String.eqb st WalletState.active).
    + apply send_all_paced in Hrun; [|exact Hs].
      eapply paced_trans; eauto.
    + inversion Hrun; subst. now apply paced_emit.
  - rewrite (main_not_resolved _ _ _ _ _ _ _ _ E) in Hrun.
    inversion Hrun; subst. now apply resolve_steps, resolving_paced in E.
  - unfold main, bind in Hrun. rewrite E in Hrun. discriminate.
Qed.

Lemma delay_after_sent_app e1 :
  delay_after_sent e1 = true ->
  forall n e2, (List.length e2 <= n)%nat ->
    delay_after_sent e2 = true -> delay_after_sent (e2 ++ e1) = true.
Proof.
  intros H1 n. induction n as [|n IH]; intros e2 Hn H2.
  - destruct e2; [exact H1 | cbn in Hn; lia].
  - destruct e2 as [|ev rest]; [exact H1|].
    cbn [app delay_after_sent] in *. destruct (is_sleep ev).
    + destruct rest as [|sent rest']; [discriminate|].
      apply andb_true_iff in H2. destruct H2 as [Hs H2].
      cbn [app]. rewrite Hs. cbn [andb]. apply IH; [cbn in Hn; lia | exact H2].
    + apply andb_true_iff in H2. destruct H2 as [Hs H2].
      rewrite Hs. cbn [andb]. apply IH; [cbn in Hn; lia | exact H2].
Qed.

Lemma delayed_refl w : delayed w w.
Proof. exists []. split; reflexivity. Qed.

Lemma delayed_trans w1 w2 w3 : delayed w1 w2 -> delayed w2 w3 -> delayed w1 w3.
Proof.
  intros (e1 & G1 & D1) (e2 & G2 & D2). exists (e2 ++ e1)%list. split.
  - unfold grows in *. now rewrite G2, G1, app_assoc.
  - eapply delay_after_sent_app; eauto.
Qed.

Lemma delayed_emit w1 w2 ev :
  is_sleep ev = false -> is_sent ev = false ->
  delayed w1 w2 -> delayed w1 (emit ev w2).
Proof.
  intros Hs Ht (e1 & G1 & D1). exists (ev :: e1). split.
  - unfold grows in *. cbn. now rewrite G1.
  - cbn [delay_after_sent]. now rewrite Hs, Ht.
Qed.

Lemma resolving_delayed w w' : resolving w w' -> delayed w w'.
Proof.
  intros [(evs & Hg & Hq) _]. exists evs. split; [exact Hg|].
  clear Hg. induction evs as [|ev evs IH]; [reflexivity|].
  cbn [forallb] in Hq. apply andb_true_iff in Hq. destruct Hq as [Hev Hq].
  unfold not_sending in Hev.
  apply andb_true_iff in Hev. destruct Hev as [Hev H3].
  apply andb_true_iff in Hev. destruct Hev as [_ H2].
  apply negb_true_iff in H2, H3.
  cbn [delay_after_sent]. rewrite H2, H3. cbn. now apply IH.
Qed.

Lemma send_fn_delayed gw wallet jetton amount fee sleep_seconds d :
  sleep_always_accepted gw sleep_seconds ->
  steps delayed (send_jetton_fn gw wallet d jetton amount fee sleep_seconds).
Proof.
  intros Hsl w r w' H.
  destruct (send_fn_cases gw wallet jetton amount fee sleep_seconds d w)
    as [(c & _ & _ & E)|[(c & x & _ & Hs & E)|
        [(e & _ & _ & E)|(e & _ & _ & E)]]].
  - rewrite E in H. inversion H; subst. eexists [_; _; _].
    split; reflexivity.
  - rewrite (Hsl w) in Hs. discriminate.
  - rewrite E in H. inversion H; subst. eexists [_; _]. split; reflexivity.
  - rewrite E in H. inversion H; subst. eexists [_; _]. split; reflexivity.
Qed.

Lemma send_all_delayed gw env args wallet jetton dests :
  sleep_always_accepted gw (jetton_send_sleep args) ->
  steps delayed (send_all gw env args wallet jetton dests).
Proof.
  intros Hs. apply steps_for_each.
  - apply delayed_refl.
  - apply delayed_trans.
  - intro d. apply attempts_steps.
    + apply delayed_trans.
    + intros. now apply delayed_emit.
    + intros. now apply delayed_emit.
    + now apply send_fn_delayed.
Qed.

Lemma main_delayed gw env args mn dests :
  sleep_always_accepted gw (jetton_send_sleep args) ->
  steps delayed (main gw env args mn dests).
Proof.
  intros Hs w r w' Hrun.
  destruct (resolve gw env args mn w) as [[[[j [wal st]]|e] w1]|] eqn:E.
  - rewrite (main_resolved _ _ _ _ _ _ _ _ _ _ E) in Hrun.
    apply resolve_steps, resolving_delayed in E.
    destruct (String.eqb st WalletState.active).
    + apply send_all_delayed in Hrun; [|exact Hs].
      eapply delayed_trans; eauto.
    + inversion Hrun; subst. now apply delayed_emit.
  - rewrite (main_not_resolved _ _ _ _ _ _ _ _ E) in Hrun.
    inversion Hrun; subst. now apply resolve_steps, resolving_delayed in E.
  - unfold main, bind in Hrun. rewrite E in Hrun. discriminate.
Qed.

(** When the gateway accepts every transfer at once, every destination is
    sent to and followed by a delay. *)
Lemma send_all_accepted gw env args wallet jetton :
  sleep_always_accepted gw (jetton_send_sleep args) ->
  forall dests w,
    all_accepted gw wallet jetton (jetton_send_amount args)
      (jetton_send_fee args) dests (n_transfer w) ->
    exists w',
      send_all gw env args wallet jetton dests w = Some (Returned tt, w') /\
      n_transfer w' = (n_transfer w + List.length dests)%nat /\
      count is_sleep w' = (count is_sleep w + List.length dests)%nat.
Proof.
  intros Hs dests. induction dests as [|d rest IH]; intros w Hacc.
  - exists w. cbn. repeat split; lia.
  - destruct (Hacc O d eq_refl) as (c & Hc). rewrite Nat.add_0_r in Hc.
    pose proof (send_fn_sent gw wallet jetton _ _ _ d w c Hc (Hs w)) as Hfn.
    set (w1 := emit (Sleep (jetton_send_sleep args))
                 (emit (LogInfo (JettonSent d c))
                    (transfer_called wallet d (address jetton)
                       (jetton_send_amount args) (jetton_send_fee args) w))).
    destruct (IH w1) as (w' & Hrun & Hn & Hsl).
    + intros i x Hx. destruct (Hacc (S i) x Hx) as (c' & Hc').
      exists c'. rewrite <- Hc'. f_equal. cbn. lia.
    + exists w'. repeat split.
      * rewrite <- Hrun. apply send_all_returned.
        rewrite send_is_send_from. now apply retry_from_returned.
      * rewrite Hn. cbn. lia.
      * rewrite Hsl. unfold count. cbn. lia.
Qed.

(** C6, as the code has it: in a run in which [time.sleep] accepts the
    configured delay whenever it is called, every delay comes right after
    the record of a sent transfer and every sent transfer is followed at
    once by a delay, the last one too; so the run contains as many delays
    as sent transfers, none after a skipped destination and none in an
    attempt that failed, and a run in which every one of the destinations
    is accepted at once shows one delay for each destination. *)
Theorem delay_follows_every_sent :
  forall gw env args mn dests w,
    sleep_always_accepted gw (jetton_send_sleep args) ->
    (exists r w' evs,
       main gw env args mn dests w = Some (r, w') /\
       events w' = (evs ++ events w)%list /\
       delay_after_sent evs = true /\
       paced w w') /\
    (forall jetton wallet w1,
       resolve gw env args mn w =
         Some (Returned (jetton, (wallet, WalletState.active)), w1) ->
       all_accepted gw wallet jetton (jetton_send_amount args)
         (jetton_send_fee args) dests (n_transfer w1) ->
       exists w',
         main gw env args mn dests w = Some (Returned tt, w') /\
         count is_sleep w' = (count is_sleep w + List.length dests)%nat).
Proof.
  intros gw env args mn dests w Hs. split.
  - destruct (main_total gw env args mn dests w) as (r & w' & Hrun).
    destruct (main_delayed _ _ _ _ _ Hs _ _ _ Hrun) as (evs & Hg & Hd).
    exists r, w', evs. split; [exact Hrun|]. split; [exact Hg|].
    split; [exact Hd|]. eapply main_paced; eauto.
  - intros jetton wallet w1 H Hacc.
    destruct (send_all_accepted gw env args wallet jetton Hs dests w1 Hacc)
      as (w' & Hrun & _ & Hsl).
    exists w'. split.
    + rewrite (main_resolved _ _ _ _ _ _ _ _ _ _ H). exact Hrun.
    + rewrite Hsl. apply resolve_steps, resolving_transfers in H.
      destruct H as (_ & -> & _). reflexivity.
Qed.

Lemma delay_follows_every_sent_witness :
  (exists r w' evs,
     main Examples.gw_ok Examples.env Examples.args Examples.words
       ["EQa"; "EQb"; "EQc"] world0 = Some (r, w') /\
     events w' = (evs ++ events world0)%list /\
     delay_after_sent evs = true /\
     paced world0 w') /\
  (forall jetton wallet w1,
     resolve Examples.gw_ok Examples.env Examples.args Examples.words world0 =
       Some (Returned (jetton, (wallet, WalletState.active)), w1) ->
     all_accepted Examples.gw_ok wallet jetton 10 0.5%float
       ["EQa"; "EQb"; "EQc"] (n_transfer w1) ->
     exists w',
       main Examples.gw_ok Examples.env Examples.args Examples.words
         ["EQa"; "EQb"; "EQc"] world0 = Some (Returned tt, w') /\
       count is_sleep w' = (count is_sleep world0 + 3)%nat).
Proof.
  apply (delay_follows_every_sent Examples.gw_ok Examples.env Examples.args
           Examples.words ["EQa"; "EQb"; "EQc"] world0).
  intros w. reflexivity.
Defined.

(** C6 fails as stated: three destinations, every send succeeds, and the
    run shows three delays, the last of them after the last send. *)
Lemma three_sends_three_delays :
  all_accepted Examples.gw_ok Examples.wallet Examples.jetton 10 0.5%float
    ["EQa"; "EQb"; "EQc"] 0 /\
  exists w',
    main Examples.gw_ok Examples.env Examples.args Examples.words
      ["EQa"; "EQb"; "EQc"] world0 = Some (Returned tt, w') /\
    count is_sleep w' = 3%nat /\
    count is_sleep w' <> 2%nat /\
    hd_error (events w') = Some (Sleep 60).
Proof.
  split.
  - intros i d _. exists 200. reflexivity.
  - eexists. split; [vm_compute; reflexivity|].
    repeat split; [discriminate].
Qed.

(** ** The order of the sends *)

Lemma transfer_requests_app l1 l2 :
  transfer_requests (l1 ++ l2) = (transfer_requests l1 ++ transfer_requests l2)%list.
Proof. unfold transfer_requests. apply flat_map_app. Qed.

Lemma transfer_requests_rev evs :
  transfer_requests (rev evs) = rev (transfer_requests evs).
Proof.
  induction evs as [|ev evs IH]; [reflexivity|].
  cbn [rev]. rewrite transfer_requests_app, IH.
  change (ev :: evs) with ([ev] ++ evs)%list.
  rewrite transfer_requests_app, rev_app_distr. f_equal.
  destruct ev; reflexivity.
Qed.

(** The loop requests the transfers destination by destination: a block of
    one or more equal requests for each destination it reached; it reaches
    every destination unless the send to one of them raises, and then it
    stops at that one. *)
Lemma send_all_blocks gw env args wallet jetton :
  forall dests w r w',
    send_all gw env args wallet jetton dests w = Some (r, w') ->
    exists ks evs,
      grows evs w w' /\
      (List.length ks <= List.length dests)%nat /\
      Forall (fun k => (1 <= k)%nat) ks /\
      transfer_requests (rev evs) =
        blocks wallet jetton (jetton_send_amount args) (jetton_send_fee args)
          dests ks /\
      match r with
      | Returned _ => List.length ks = List.length dests
      | Raised e =>
          exists pre d post w2,
            dests = (pre ++ d :: post)%list /\
            List.length ks = S (List.length pre) /\
            send_all gw env args wallet jetton pre w = Some (Returned tt, w2) /\
            send_jetton gw env wallet d jetton (jetton_send_amount args)
              (jetton_send_fee args) (jetton_send_sleep args) w2 =
              Some (Raised e, w')
      end.
Proof.
  induction dests as [|d rest IH]; intros w r w' Hrun.
  - inversion Hrun; subst. exists [], []. repeat split; auto.
  - rewrite send_all_cons in Hrun.
    destruct (send_jetton gw env wallet d jetton (jetton_send_amount args)
                (jetton_send_fee args) (jetton_send_sleep args) w)
      as [[[[]|e] w1]|] eqn:E; try discriminate.
    + pose proof (send_requested _ _ _ _ _ _ _ _ _ _ _ E)
        as (e1 & k1 & G1 & K1 & Q1 & _).
      apply IH in Hrun.
      destruct Hrun as (ks & e2 & G2 & L & F & Q2 & Hall).
      exists (k1 :: ks), (e2 ++ e1)%list. repeat split.
      * unfold grows in *. now rewrite G2, G1, app_assoc.
      * cbn. lia.
      * constructor; auto.
      * rewrite rev_app_distr, transfer_requests_app, Q2.
        rewrite transfer_requests_rev, Q1, rev_repeat. reflexivity.
      * destruct r as [v|x].
        -- cbn. f_equal. exact Hall.
        -- destruct Hall as (pre & d' & post & w2 & Hd & Hl & Hp & Hs).
           exists (d :: pre), d', post, w2. repeat split.
           ++ cbn. now rewrite Hd.
           ++ cbn. now rewrite Hl.
           ++ rewrite send_all_cons, E. exact Hp.
           ++ exact Hs.
    + inversion Hrun; subst.
      pose proof (send_requested _ _ _ _ _ _ _ _ _ _ _ E)
        as (e1 & k1 & G1 & K1 & Q1 & _).
      exists [k1], e1. repeat split; auto.
      * cbn. lia.
      * rewrite transfer_requests_rev, Q1, rev_repeat.
        unfold blocks. cbn. destruct rest; cbn; now rewrite app_nil_r.
      * exists [], d, rest, w. repeat split; auto.
Qed.

(** C8: the transfers of a run, in the order they were requested, are one
    block for each destination in list order (a block repeats the request
    when the send was retried), every destination reached has a block of
    its own whether or not its address occurred before, and every request
    carries the amount and the fee of the run.  A run that returns has a
    block for every destination; a run that raises has a block for every
    destination up to the one whose send raised that error, so the first
    destination is always sent to and a destination is left out only after
    a send raised. *)
Theorem destinations_in_order_without_dedup :
  forall gw env args mn dests w jetton wallet w1,
    resolve gw env args mn w =
      Some (Returned (jetton, (wallet, WalletState.active)), w1) ->
    exists r w' ks evs,
      main gw env args mn dests w = Some (r, w') /\
      events w' = (evs ++ events w1)%list /\
      (List.length ks <= List.length dests)%nat /\
      Forall (fun k => (1 <= k)%nat) ks /\
      transfer_requests (rev evs) =
        blocks wallet jetton (jetton_send_amount args) (jetton_send_fee args)
          dests ks /\
      match r with
      | Returned _ => List.length ks = List.length dests
      | Raised e =>
          exists pre d post w2,
            dests = (pre ++ d :: post)%list /\
            List.length ks = S (List.length pre) /\
            send_all gw env args wallet jetton pre w1 = Some (Returned tt, w2) /\
            send_jetton gw env wallet d jetton (jetton_send_amount args)
              (jetton_send_fee args) (jetton_send_sleep args) w2 =
              Some (Raised e, w')
      end.
Proof.
  intros gw env args mn dests w jetton wallet w1 H.
  destruct (main_total gw env args mn dests w) as (r & w' & Hrun).
  exists r, w'. pose proof Hrun as Hloop.
  rewrite (main_resolved _ _ _ _ _ _ _ _ _ _ H) in Hloop. cbn in Hloop.
  apply send_all_blocks in Hloop.
  destruct Hloop as (ks & evs & Hl). exists ks, evs. split; [exact Hrun|].
  exact Hl.
Qed.

Lemma destinations_in_order_without_dedup_witness :
  exists r w' ks evs,
    main Examples.gw_ok Examples.env Examples.args Examples.words
      ["EQa"; "EQb"; "EQa"] world0 = Some (r, w') /\
    events w' = (evs ++ events Examples.resolved)%list /\
    (List.length ks <= 3)%nat /\
    Forall (fun k => (1 <= k)%nat) ks /\
    transfer_requests (rev evs) =
      blocks Examples.wallet Examples.jetton 10 0.5%float
        ["EQa"; "EQb"; "EQa"] ks /\
    match r with
    | Returned _ => List.length ks = 3%nat
    | Raised e =>
        exists pre d post w2,
          ["EQa"; "EQb"; "EQa"] = (pre ++ d :: post)%list /\
          List.length ks = S (List.length pre) /\
          send_all Examples.gw_ok Examples.env Examples.args Examples.wallet
            Examples.jetton pre Examples.resolved = Some (Returned tt, w2) /\
          send_jetton Examples.gw_ok Examples.env Examples.wallet d
            Examples.jetton 10 0.5%float 60 w2 = Some (Raised e, w')
    end.
Proof.
  apply (destinations_in_order_without_dedup Examples.gw_ok Examples.env
           Examples.args Examples.words ["EQa"; "EQb"; "EQa"] world0
           Examples.jetton Examples.wallet Examples.resolved).
  vm_compute. reflexivity.
Defined.

(** * Further properties *)

(** ** Lines and whitespace *)

Lemma line_feed_isspace : isspace line_feed = true.
Proof. reflexivity. Qed.

Lemma eqb_line_feed_isspace c : Ascii.eqb c line_feed = true -> isspace c = true.
Proof. intros H. apply Ascii.eqb_eq in H. subst. reflexivity. Qed.

Lemma lstrip_all_space s : all_space s = true -> lstrip s = EmptyString.
Proof.
  induction s as [|c s IH]; cbn; [auto|].
  intros H. apply andb_true_iff in H. destruct H as [-> H]. auto.
Qed.

Lemma lstrip_app a b :
  lstrip (a ++ b) = if all_space a then lstrip b else (lstrip a ++ b)%string.
Proof.
  induction a as [|c a IH]; cbn; [reflexivity|].
  destruct (isspace c); cbn; [exact IH | reflexivity].
Qed.

Lemma rstrip_app_space t c :
  isspace c = true -> rstrip (t ++ String c EmptyString) = rstrip t.
Proof.
  intros Hc. induction t as [|a t IH]; cbn.
  - now rewrite Hc.
  - now rewrite IH.
Qed.

Lemma lstrip_first s c : first_char (lstrip s) = Some c -> isspace c = false.
Proof.
  induction s as [|a s IH]; cbn; [discriminate|].
  destruct (isspace a) eqn:E; [exact IH|].
  cbn. intros H. inversion H; subst. exact E.
Qed.

Lemma rstrip_first s c : first_char (rstrip s) = Some c -> first_char s = Some c.
Proof.
  destruct s as [|a s]; cbn; [auto|].
  destruct (rstrip s); [destruct (isspace a)|]; cbn; auto. discriminate.
Qed.

Lemma rstrip_last s c : last_char (rstrip s) = Some c -> isspace c = false.
Proof.
  induction s as [|a s IH]; cbn; [discriminate|].
  destruct (rstrip s) as [|b r] eqn:E.
  - destruct (isspace a) eqn:Ea; cbn; [discriminate|].
    intros H. inversion H; subst. exact Ea.
  - change (last_char (String a (String b r)))
      with (match last_char (String b r) with
            | None => Some a
            | Some l => Some l
            end).
    destruct (last_char (String b r)) as [l|] eqn:El.
    + exact IH.
    + cbn in El. destruct (last_char r); discriminate.
Qed.

Lemma strip_trimmed s : trimmed (strip s) = true.
Proof.
  unfold trimmed, strip.
  destruct (first_char (rstrip (lstrip s))) as [a|] eqn:Ea; [|reflexivity].
  destruct (last_char (rstrip (lstrip s))) as [b|] eqn:Eb; [|reflexivity].
  apply rstrip_first, lstrip_first in Ea. apply rstrip_last in Eb.
  now rewrite Ea, Eb.
Qed.

Lemma lstrip_no_line_feed s : no_line_feed s = true -> no_line_feed (lstrip s) = true.
Proof.
  induction s as [|a s IH]; cbn; [auto|].
  intros H. destruct (isspace a).
  - apply andb_true_iff in H. now apply IH.
  - exact H.
Qed.

Lemma rstrip_no_line_feed s : no_line_feed s = true -> no_line_feed (rstrip s) = true.
Proof.
  induction s as [|a s IH]; cbn [rstrip no_line_feed]; [auto|].
  intros H. apply andb_true_iff in H. destruct H as [Ha H].
  specialize (IH H). destruct (rstrip s) as [|b r].
  - destruct (isspace a); cbn [no_line_feed]; [reflexivity | now rewrite Ha].
  - cbn [no_line_feed] in *. now rewrite Ha, IH.
Qed.

(** The line feed that ends a line is stripped with the whitespace before
    it. *)
Lemma strip_line body :
  strip (body ++ String line_feed EmptyString) = strip body.
Proof.
  unfold strip. rewrite lstrip_app.
  destruct (all_space body) eqn:E.
  - now rewrite (lstrip_all_space _ E).
  - apply rstrip_app_space. reflexivity.
Qed.

Lemma strip_all_space s : all_space s = true -> strip s = EmptyString.
Proof. intros H. unfold strip. now rewrite lstrip_all_space. Qed.

Lemma readlines_first_line body rest :
  no_line_feed body = true ->
  readlines (body ++ String line_feed rest) =
  (body ++ String line_feed EmptyString)%string :: readlines rest.
Proof.
  induction body as [|c body IH]; cbn [no_line_feed append readlines].
  - intros _. now rewrite Ascii.eqb_refl.
  - intros H. apply andb_true_iff in H. destruct H as [Hc H].
    apply negb_true_iff in Hc. rewrite Hc, (IH H). reflexivity.
Qed.

Lemma readlines_last_line body :
  no_line_feed body = true -> body <> EmptyString -> readlines body = [body].
Proof.
  induction body as [|c body IH]; cbn [no_line_feed readlines]; [congruence|].
  intros H _. apply andb_true_iff in H. destruct H as [Hc H].
  apply negb_true_iff in Hc. rewrite Hc.
  destruct body as [|b body]; [reflexivity|].
  rewrite (IH H); [reflexivity | discriminate].
Qed.

(** Every line [readlines] returns is free of line feeds, but for the one
    that may end it. *)
Lemma readlines_lines text :
  Forall (fun l => exists body,
            no_line_feed body = true /\
            (l = (body ++ String line_feed EmptyString)%string \/ l = body))
    (readlines text).
Proof.
  induction text as [|c text IH]; cbn [readlines]; [constructor|].
  destruct (Ascii.eqb c line_feed) eqn:Ec.
  - constructor; [|exact IH]. exists EmptyString. split; [reflexivity|].
    left. apply Ascii.eqb_eq in Ec. now subst.
  - destruct (readlines text) as [|l ls]; constructor; try constructor.
    + exists (String c EmptyString). cbn [no_line_feed]. rewrite Ec. auto.
    + inversion IH as [|? ? (body & Hb & Hl) Hls]; subst.
      exists (String c body). cbn [no_line_feed]. rewrite Ec, Hb.
      split; [reflexivity|]. destruct Hl as [->| ->]; auto.
    + now inversion IH.
Qed.

Lemma read_lines_clean text :
  Forall (fun s => no_line_feed s = true /\ trimmed s = true)
    (map strip (readlines text)).
Proof.
  apply Forall_map. eapply Forall_impl; [|apply readlines_lines].
  intros l (body & Hb & Hl). split; [|apply strip_trimmed].
  assert (strip l = strip body) as ->.
  { destruct Hl as [->| ->]; [apply strip_line | reflexivity]. }
  unfold strip. now apply rstrip_no_line_feed, lstrip_no_line_feed.
Qed.

Lemma readlines_nil s : readlines s = [] -> s = EmptyString.
Proof.
  destruct s as [|c s]; cbn [readlines]; [auto|].
  destruct (Ascii.eqb c line_feed); [discriminate|].
  destruct (readlines s); discriminate.
Qed.

Lemma last_char_none s : last_char s = None -> s = EmptyString.
Proof.
  destruct s as [|c s]; cbn; [auto|]. destruct (last_char s); discriminate.
Qed.

(** Whole lines before a text are read on their own. *)
Lemma readlines_app before after :
  whole_lines before = true ->
  readlines (before ++ after) = (readlines before ++ readlines after)%list.
Proof.
  induction before as [|c before IH]; [reflexivity|].
  unfold whole_lines. cbn [last_char append readlines]. intros H.
  assert (whole_lines before = true) as Hw.
  { unfold whole_lines. destruct (last_char before); auto. }
  rewrite (IH Hw). destruct (Ascii.eqb c line_feed) eqn:Ec; [reflexivity|].
  destruct (last_char before) as [l|] eqn:El; [|congruence].
  destruct (readlines before) as [|x xs] eqn:Er; [|reflexivity].
  apply readlines_nil in Er. subst. discriminate.
Qed.

(** ** [setup] *)

Lemma setup_returned fs ns mtext dtext :
  fs (source_wallet_mnemonic_file ns) = Reply mtext ->
  fs (destination_wallets_file ns) = Reply dtext ->
  setup fs ns =
  ([], Returned (namespace ns, map strip (readlines mtext),
                 map strip (readlines dtext))).
Proof. intros Hm Hd. unfold setup, read_stripped. now rewrite Hm, Hd. Qed.

(** X1: a missing input file ends the script with exit status 2 before
    the gateway is contacted, with one error record that names the missing
    file: the mnemonic file when it cannot be opened (the destination file
    is then not looked at), else the destination file. *)
Theorem missing_input_file_exits_2 :
  forall gw env fs ns,
    ((exists e, fs (source_wallet_mnemonic_file ns) = Fault e /\
                isinstance e FileNotFoundError = true) \/
     (exists text e,
        fs (source_wallet_mnemonic_file ns) = Reply text /\
        fs (destination_wallets_file ns) = Fault e /\
        isinstance e FileNotFoundError = true)) ->
    script gw env fs ns =
      ([match fs (source_wallet_mnemonic_file ns) with
        | Fault _ => MnemonicFileNotFound (source_wallet_mnemonic_file ns)
        | Reply _ => DestinationFileNotFound (destination_wallets_file ns)
        end],
       Some (Raised (SystemExit 2), world0)) /\
    run_status (snd (script gw env fs ns)) = Some 2.
Proof.
  intros gw env fs ns [(e & Hm & He)|(text & e & Hm & Hd & He)].
  - assert (script gw env fs ns =
            ([MnemonicFileNotFound (source_wallet_mnemonic_file ns)],
             Some (Raised (SystemExit 2), world0))) as Hs.
    { unfold script, setup, read_stripped. now rewrite Hm, He. }
    rewrite Hs, Hm. split; reflexivity.
  - assert (script gw env fs ns =
            ([DestinationFileNotFound (destination_wallets_file ns)],
             Some (Raised (SystemExit 2), world0))) as Hs.
    { unfold script, setup, read_stripped. now rewrite Hm, Hd, He. }
    rewrite Hs, Hm. split; reflexivity.
Qed.

Lemma missing_input_file_exits_2_witness :
  script Examples.gw_ok Examples.env SetupExamples.fs_no_wallets
    SetupExamples.ns =
    ([DestinationFileNotFound ".wallets"],
     Some (Raised (SystemExit 2), world0)) /\
  run_status
    (snd (script Examples.gw_ok Examples.env SetupExamples.fs_no_wallets
            SetupExamples.ns)) = Some 2.
Proof.
  apply (missing_input_file_exits_2 Examples.gw_ok Examples.env
           SetupExamples.fs_no_wallets SetupExamples.ns).
  right. exists "abandon", SetupExamples.not_found. repeat split; reflexivity.
Defined.

(** X2: [setup] catches [FileNotFoundError] only.  Any other error of
    opening or reading one of the two files leaves the script as it is,
    with no record logged and no gateway call. *)
Theorem other_file_error_is_not_caught :
  forall gw env fs ns e,
    isinstance e FileNotFoundError = false ->
    (fs (source_wallet_mnemonic_file ns) = Fault e \/
     exists text,
       fs (source_wallet_mnemonic_file ns) = Reply text /\
       fs (destination_wallets_file ns) = Fault e) ->
    script gw env fs ns = ([], Some (Raised e, world0)).
Proof.
  intros gw env fs ns e He [Hm|(text & Hm & Hd)];
    unfold script, setup, read_stripped.
  - now rewrite Hm, He.
  - now rewrite Hm, Hd, He.
Qed.

Lemma other_file_error_is_not_caught_witness :
  script Examples.gw_ok Examples.env (fun _ => Fault SetupExamples.io_error)
    SetupExamples.ns = ([], Some (Raised SetupExamples.io_error, world0)).
Proof.
  apply (other_file_error_is_not_caught Examples.gw_ok Examples.env
           (fun _ => Fault SetupExamples.io_error) SetupExamples.ns
           SetupExamples.io_error).
  - reflexivity.
  - left. reflexivity.
Defined.

(** X3: what [setup] returns is clean: no mnemonic word and no
    destination address contains a line feed, begins with whitespace or
    ends with whitespace; nothing was logged, and the namespace is the
    parsed one. *)
Theorem setup_returns_clean_lines :
  forall fs ns records args source_wallet_mnemonic destination_wallets,
    setup fs ns =
      (records, Returned (args, source_wallet_mnemonic, destination_wallets)) ->
    records = [] /\ args = namespace ns /\
    Forall (fun s => no_line_feed s = true /\ trimmed s = true)
      source_wallet_mnemonic /\
    Forall (fun s => no_line_feed s = true /\ trimmed s = true)
      destination_wallets.
Proof.
  intros fs ns records args mn ds H. unfold setup, read_stripped in H.
  destruct (fs (source_wallet_mnemonic_file ns)) as [mtext|e].
  - destruct (fs (destination_wallets_file ns)) as [dtext|e].
    + inversion H; subst. repeat split; apply read_lines_clean.
    + destruct (isinstance e FileNotFoundError); discriminate.
  - destruct (isinstance e FileNotFoundError); discriminate.
Qed.

Lemma setup_returns_clean_lines_witness :
  [] = @nil setup_record /\ Examples.args = namespace SetupExamples.ns /\
  Forall (fun s => no_line_feed s = true /\ trimmed s = true)
    ["abandon"; "ability"] /\
  Forall (fun s => no_line_feed s = true /\ trimmed s = true)
    ["EQa"; ""; "EQb"].
Proof.
  apply (setup_returns_clean_lines SetupExamples.fs SetupExamples.ns).
  vm_compute. reflexivity.
Defined.

(** X4: [setup] returns one entry for every line of a file and drops
    none: a line of whitespace only, anywhere in the destination file,
    becomes the empty address at its place in the list. *)
Theorem blank_line_becomes_empty_address :
  forall fs ns mtext before blank rest,
    fs (source_wallet_mnemonic_file ns) = Reply mtext ->
    fs (destination_wallets_file ns) =
      Reply (before ++ (blank ++ String line_feed rest))%string ->
    whole_lines before = true ->
    no_line_feed blank = true ->
    all_space blank = true ->
    setup fs ns =
    ([], Returned
           (namespace ns, map strip (readlines mtext),
            (map strip (readlines before) ++
             EmptyString :: map strip (readlines rest))%list)).
Proof.
  intros fs ns mtext before blank rest Hm Hd Hw Hn Hs.
  rewrite (setup_returned _ _ _ _ Hm Hd). do 3 f_equal.
  rewrite (readlines_app _ _ Hw), (readlines_first_line _ _ Hn).
  rewrite map_app. cbn [map]. now rewrite strip_line, (strip_all_space _ Hs).
Qed.

Lemma blank_line_becomes_empty_address_witness :
  setup SetupExamples.fs SetupExamples.ns =
  ([], Returned
         (Examples.args,
          map strip
            (readlines
               (String.append "abandon" (String line_feed
                  (String.append " ability " (String line_feed ""))))),
          (map strip
             (readlines (String.append "EQa " (String line_feed ""))) ++
           EmptyString :: map strip (readlines "EQb"))%list)).
Proof.
  apply (blank_line_becomes_empty_address SetupExamples.fs SetupExamples.ns
           (String.append "abandon" (String line_feed
              (String.append " ability " (String line_feed ""))))
           (String.append "EQa " (String line_feed "")) "  " "EQb");
    reflexivity.
Defined.

(** ** How many calls a decorated function makes *)

Section Calls.

Context {A : Type}.
Variables (max_attempt_number wait : Z) (reraise : bool) (fn : M A).
Variable calls : World -> nat.

Hypothesis calls_emit : forall ev w, calls (emit ev w) = calls w.
Hypothesis fn_calls : forall w r w', fn w = Some (r, w') -> calls w' = S (calls w).

Lemma attempts_calls fuel :
  forall a w r w',
    attempts fuel max_attempt_number wait reraise fn a w = Some (r, w') ->
    (calls w < calls w' <= calls w + fuel)%nat.
Proof.
  induction fuel as [|fuel IH]; intros a w r w' Hrun; [discriminate|].
  cbn [attempts] in Hrun. unfold try_except in Hrun.
  destruct (fn w) as [[[v|e] w1]|] eqn:E; try discriminate.
  - inversion Hrun; subst. apply fn_calls in E. lia.
  - apply fn_calls in E.
    destruct (retry_if_exception_type TonCenterClientError e).
    + unfold bind at 1, after_log, tell in Hrun.
      destruct (stop_after_attempt max_attempt_number a).
      * inversion Hrun; subst. rewrite calls_emit. lia.
      * unfold bind at 1, wait_fixed, tell in Hrun.
        apply IH in Hrun. rewrite !calls_emit in Hrun. lia.
    + inversion Hrun; subst. lia.
Qed.

(** A decorated function calls the gateway at least once and at most
    [attempt_bound] times. *)
Lemma retry_calls w r w' :
  retry max_attempt_number wait reraise fn w = Some (r, w') ->
  (calls w < calls w' <=
   calls w + Z.to_nat (attempt_bound max_attempt_number))%nat.
Proof.
  intros H. apply attempts_calls in H. unfold attempt_bound. lia.
Qed.

(** What the decorated function returns, the wrapped function returned. *)
Lemma attempts_returns (Q : A -> Prop) :
  (forall w v w', fn w = Some (Returned v, w') -> Q v) ->
  forall fuel a w v w',
    attempts fuel max_attempt_number wait reraise fn a w =
      Some (Returned v, w') -> Q v.
Proof.
  intros Hfn fuel. induction fuel as [|fuel IH]; intros a w v w' Hrun;
    [discriminate|].
  cbn [attempts] in Hrun. unfold try_except in Hrun.
  destruct (fn w) as [[[v1|e] w1]|] eqn:E; try discriminate.
  - inversion Hrun; subst. eapply Hfn; eauto.
  - destruct (retry_if_exception_type TonCenterClientError e).
    + unfold bind at 1, after_log, tell in Hrun.
      destruct (stop_after_attempt max_attempt_number a); [discriminate|].
      unfold bind at 1, wait_fixed, tell in Hrun. eapply IH; eauto.
    + discriminate.
Qed.

End Calls.

Section SendCalls.

Variables (gw : Gateway) (env : RetryEnv).
Variables (source_wallet : Wallet) (jetton : Jetton).
Variables (amount : Z) (fee : float) (sleep_seconds : Z).

Local Abbreviation send_fn d :=
  (send_jetton_fn gw source_wallet d jetton amount fee sleep_seconds).
Local Abbreviation send d :=
  (send_jetton gw env source_wallet d jetton amount fee sleep_seconds).

Lemma send_fn_one_call d w r w' :
  send_fn d w = Some (r, w') -> n_transfer w' = S (n_transfer w).
Proof.
  intros H.
  destruct (send_fn_cases gw source_wallet jetton amount fee sleep_seconds d w)
    as [(c & _ & _ & E)|[(c & x & _ & _ & E)|
        [(e & _ & _ & E)|(e & _ & _ & E)]]];
    rewrite E in H; inversion H; subst; reflexivity.
Qed.

Lemma send_transfers_within d :
  steps (transfers_within (Z.to_nat (attempt_bound (SEND_RETRY_ATTEMPTS env))))
    (send d).
Proof.
  intros w r w' H. unfold transfers_within.
  eapply (retry_calls _ _ _ _ n_transfer); [reflexivity| |exact H].
  intros. eapply send_fn_one_call; eauto.
Qed.

Lemma resolution_untouched_refl w : resolution_untouched w w.
Proof. repeat split. Qed.

Lemma resolution_untouched_trans w1 w2 w3 :
  resolution_untouched w1 w2 -> resolution_untouched w2 w3 ->
  resolution_untouched w1 w3.
Proof.
  intros (A1 & B1 & C1 & D1) (A2 & B2 & C2 & D2). repeat split; congruence.
Qed.

Lemma resolution_untouched_emit w1 w2 ev :
  is_update ev = false -> is_get_state ev = false ->
  resolution_untouched w1 w2 -> resolution_untouched w1 (emit ev w2).
Proof.
  intros H1 H2 (A1 & B1 & C1 & D1). repeat split; auto; cbn.
  - now rewrite H1.
  - now rewrite H2.
Qed.

Lemma send_fn_resolution_untouched d : steps resolution_untouched (send_fn d).
Proof.
  intros w r w' H.
  destruct (send_fn_cases gw source_wallet jetton amount fee sleep_seconds d w)
    as [(c & _ & _ & E)|[(c & x & _ & _ & E)|
        [(e & _ & _ & E)|(e & _ & _ & E)]]];
    rewrite E in H; inversion H; subst; repeat split.
Qed.

Lemma send_resolution_untouched d : steps resolution_untouched (send d).
Proof.
  apply attempts_steps.
  - apply resolution_untouched_trans.
  - intros. now apply resolution_untouched_emit.
  - intros. now apply resolution_untouched_emit.
  - apply send_fn_resolution_untouched.
Qed.

End SendCalls.

(** The loop requests at most [attempt_bound] transfers for each
    destination, and at least one for each when it returns. *)
Lemma send_all_transfers gw env args wallet jetton :
  forall dests w r w',
    send_all gw env args wallet jetton dests w = Some (r, w') ->
    (n_transfer w' <=
     n_transfer w +
     List.length dests * Z.to_nat (attempt_bound (SEND_RETRY_ATTEMPTS env)))%nat /\
    (r = Returned tt -> (n_transfer w + List.length dests <= n_transfer w')%nat).
Proof.
  induction dests as [|d rest IH]; intros w r w' Hrun.
  - inversion Hrun; subst. cbn. split; [lia | intros _; lia].
  - rewrite send_all_cons in Hrun.
    destruct (send_jetton gw env wallet d jetton (jetton_send_amount args)
                (jetton_send_fee args) (jetton_send_sleep args) w)
      as [[[[]|e] w1]|] eqn:E; try discriminate.
    + apply send_transfers_within in E. unfold transfers_within in E.
      apply IH in Hrun. destruct Hrun as [H1 H2]. cbn [List.length].
      split; [lia | intros Hr; specialize (H2 Hr); lia].
    + inversion Hrun; subst.
      apply send_transfers_within in E. unfold transfers_within in E.
      cbn [List.length]. split; [lia | discriminate].
Qed.

Lemma send_all_resolution_untouched gw env args wallet jetton dests :
  steps resolution_untouched (send_all gw env args wallet jetton dests).
Proof.
  apply steps_for_each.
  - apply resolution_untouched_refl.
  - apply resolution_untouched_trans.
  - intro d. apply send_resolution_untouched.
Qed.

(** ** Resolution, attempt by attempt *)

Section Resolvers.

Variables (gw : Gateway) (env : RetryEnv).

Lemma jetton_only_refl w : jetton_only w w.
Proof. split; [apply resolving_refl | reflexivity]. Qed.

Lemma jetton_only_trans w1 w2 w3 :
  jetton_only w1 w2 -> jetton_only w2 w3 -> jetton_only w1 w3.
Proof.
  intros [H1 N1] [H2 N2]. split; [eapply resolving_trans; eauto | congruence].
Qed.

Lemma jetton_only_emit w1 w2 ev :
  not_sending ev = true -> jetton_only w1 w2 -> jetton_only w1 (emit ev w2).
Proof. intros Hev [H1 N1]. split; [now apply resolving_emit | exact N1]. Qed.

Lemma wallet_only_refl w : wallet_only w w.
Proof. split; [apply resolving_refl | reflexivity]. Qed.

Lemma wallet_only_trans w1 w2 w3 :
  wallet_only w1 w2 -> wallet_only w2 w3 -> wallet_only w1 w3.
Proof.
  intros [H1 N1] [H2 N2]. split; [eapply resolving_trans; eauto | congruence].
Qed.

Lemma wallet_only_emit w1 w2 ev :
  not_sending ev = true -> wallet_only w1 w2 -> wallet_only w1 (emit ev w2).
Proof. intros Hev [H1 N1]. split; [now apply resolving_emit | exact N1]. Qed.

Lemma get_jetton_fn_only addr : steps jetton_only (get_jetton_fn gw addr).
Proof.
  intros w r w' H. split; [eapply get_jetton_fn_steps; eauto|].
  unfold get_jetton_fn, bind, Jetton_update in H. cbn in H.
  destruct (jetton_update gw (n_update w) addr); inversion H; reflexivity.
Qed.

Lemma get_wallet_fn_only mn v : steps wallet_only (get_wallet_fn gw mn v).
Proof.
  intros w r w' H. split; [eapply get_wallet_fn_steps; eauto|].
  unfold get_wallet_fn, bind, Wallet_get_state in H. cbn in H.
  destruct (wallet_get_state gw (n_get_state w) (mkWallet mn v));
    inversion H; reflexivity.
Qed.

Lemma get_jetton_only addr : steps jetton_only (get_jetton gw env addr).
Proof.
  apply attempts_steps.
  - apply jetton_only_trans.
  - intros. now apply jetton_only_emit.
  - intros. now apply jetton_only_emit.
  - apply get_jetton_fn_only.
Qed.

Lemma get_wallet_only mn v : steps wallet_only (get_wallet gw env mn v).
Proof.
  apply attempts_steps.
  - apply wallet_only_trans.
  - intros. now apply wallet_only_emit.
  - intros. now apply wallet_only_emit.
  - apply get_wallet_fn_only.
Qed.

Lemma get_jetton_fn_one_call addr w r w' :
  get_jetton_fn gw addr w = Some (r, w') -> n_update w' = S (n_update w).
Proof.
  unfold get_jetton_fn, bind, Jetton_update. cbn.
  destruct (jetton_update gw (n_update w) addr); intros H; inversion H;
    reflexivity.
Qed.

Lemma get_wallet_fn_one_call mn v w r w' :
  get_wallet_fn gw mn v w = Some (r, w') -> n_get_state w' = S (n_get_state w).
Proof.
  unfold get_wallet_fn, bind, Wallet_get_state. cbn.
  destruct (wallet_get_state gw (n_get_state w) (mkWallet mn v));
    intros H; inversion H; reflexivity.
Qed.

Lemma get_jetton_calls addr w r w' :
  get_jetton gw env addr w = Some (r, w') ->
  (n_update w < n_update w' <=
   n_update w + Z.to_nat (attempt_bound (RETRIEVE_RETRY_ATTEMPTS env)))%nat.
Proof.
  intros H. eapply (retry_calls _ _ _ _ n_update); [reflexivity| |exact H].
  intros. eapply get_jetton_fn_one_call; eauto.
Qed.

Lemma get_wallet_calls mn v w r w' :
  get_wallet gw env mn v w = Some (r, w') ->
  (n_get_state w < n_get_state w' <=
   n_get_state w + Z.to_nat (attempt_bound (RETRIEVE_RETRY_ATTEMPTS env)))%nat.
Proof.
  intros H. eapply (retry_calls _ _ _ _ n_get_state); [reflexivity| |exact H].
  intros. eapply get_wallet_fn_one_call; eauto.
Qed.

(** The jetton that [get_jetton] returns has the address it was asked
    for. *)
Lemma get_jetton_address addr w j w' :
  get_jetton gw env addr w = Some (Returned j, w') -> address j = addr.
Proof.
  apply (attempts_returns _ _ _ _ (fun j => address j = addr)).
  intros w0 v w0'. unfold get_jetton_fn, bind, Jetton_update. cbn.
  destruct (jetton_update gw (n_update w0) addr); intros H; inversion H;
    reflexivity.
Qed.

Lemma get_wallet_wallet mn v w ws w' :
  get_wallet gw env mn v w = Some (Returned ws, w') -> fst ws = mkWallet mn v.
Proof.
  apply (attempts_returns _ _ _ _ (fun ws => fst ws = mkWallet mn v)).
  intros w0 x w0'. unfold get_wallet_fn, bind, Wallet_get_state. cbn.
  destruct (wallet_get_state gw (n_get_state w0) (mkWallet mn v));
    intros H; inversion H; reflexivity.
Qed.

(** [k] failed attempts of [get_jetton], none of them the last. *)
Lemma get_jetton_after_faults addr k w :
  jetton_faults gw addr (n_update w) k ->
  Z.of_nat k < attempt_bound (RETRIEVE_RETRY_ATTEMPTS env) ->
  exists wk,
    get_jetton gw env addr w =
    retry_from (RETRIEVE_RETRY_ATTEMPTS env) (RETRIEVE_RETRY_WAIT env) true
      (get_jetton_fn gw addr) (1 + Z.of_nat k) wk /\
    n_update wk = (n_update w + k)%nat /\ jetton_only w wk.
Proof.
  intros Hf Hk. unfold attempt_bound in Hk.
  apply (retry_from_faults (RETRIEVE_RETRY_ATTEMPTS env)
           (RETRIEVE_RETRY_WAIT env) true (get_jetton_fn gw addr) n_update
           (fun i => client_error (jetton_update gw i addr)) jetton_only
           jetton_only_refl jetton_only_trans).
  - intros. now apply jetton_only_emit.
  - intros. now apply jetton_only_emit.
  - reflexivity.
  - intros w0 e H. apply client_error_fault in H. destruct H as [H He].
    split; [exact He|]. eexists. split; [|split].
    + unfold get_jetton_fn, bind, Jetton_update. cbn. rewrite H. reflexivity.
    + reflexivity.
    + split; [|reflexivity]. split; [|reflexivity].
      eexists [_]. split; reflexivity.
  - intros i Hi. destruct (Hf i Hi) as (e & H & He). rewrite H. cbn.
    rewrite He. discriminate.
  - lia.
Qed.

Lemma get_wallet_after_faults mn v k w :
  wallet_faults gw (mkWallet mn v) (n_get_state w) k ->
  Z.of_nat k < attempt_bound (RETRIEVE_RETRY_ATTEMPTS env) ->
  exists wk,
    get_wallet gw env mn v w =
    retry_from (RETRIEVE_RETRY_ATTEMPTS env) (RETRIEVE_RETRY_WAIT env) true
      (get_wallet_fn gw mn v) (1 + Z.of_nat k) wk /\
    n_get_state wk = (n_get_state w + k)%nat /\ wallet_only w wk.
Proof.
  intros Hf Hk. unfold attempt_bound in Hk.
  apply (retry_from_faults (RETRIEVE_RETRY_ATTEMPTS env)
           (RETRIEVE_RETRY_WAIT env) true (get_wallet_fn gw mn v) n_get_state
           (fun i => client_error (wallet_get_state gw i (mkWallet mn v)))
           wallet_only wallet_only_refl wallet_only_trans).
  - intros. now apply wallet_only_emit.
  - intros. now apply wallet_only_emit.
  - reflexivity.
  - intros w0 e H. apply client_error_fault in H. destruct H as [H He].
    split; [exact He|]. eexists. split; [|split].
    + unfold get_wallet_fn, bind, Wallet_get_state. cbn. rewrite H.
      reflexivity.
    + reflexivity.
    + split; [|reflexivity]. split; [|reflexivity].
      eexists [_]. split; reflexivity.
  - intros i Hi. destruct (Hf i Hi) as (e & H & He). rewrite H. cbn.
    rewrite He. discriminate.
  - lia.
Qed.

End Resolvers.

(** ** The calls of a run *)

Lemma resolve_calls gw env args mn w r w1 :
  resolve gw env args mn w = Some (r, w1) ->
  let bound := Z.to_nat (attempt_bound (RETRIEVE_RETRY_ATTEMPTS env)) in
  (n_update w < n_update w1 <= n_update w + bound)%nat /\
  (n_get_state w <= n_get_state w1 <= n_get_state w + bound)%nat.
Proof.
  intros H bound. unfold resolve, try_except, bind in H.
  destruct (get_jetton gw env (jetton_address args) w)
    as [[[j|e] w0]|] eqn:Ej; try discriminate.
  - pose proof (get_jetton_calls _ _ _ _ _ _ Ej) as Hu.
    apply get_jetton_only in Ej. destruct Ej as [_ Hs].
    destruct (get_wallet gw env mn (source_wallet_version args) w0)
      as [[[ws|e] w2]|] eqn:Ew; try discriminate.
    + pose proof (get_wallet_calls _ _ _ _ _ _ _ Ew) as Hg.
      apply get_wallet_only in Ew. destruct Ew as [_ Hn].
      inversion H; subst. fold bound in Hu, Hg. lia.
    + pose proof (get_wallet_calls _ _ _ _ _ _ _ Ew) as Hg.
      apply get_wallet_only in Ew. destruct Ew as [_ Hn].
      fold bound in Hu, Hg.
      destruct (isinstance e TonCenterClientError); inversion H; subst;
        cbn; lia.
  - pose proof (get_jetton_calls _ _ _ _ _ _ Ej) as Hu.
    apply get_jetton_only in Ej. destruct Ej as [_ Hs]. fold bound in Hu.
    destruct (isinstance e TonCenterClientError); inversion H; subst;
      cbn; lia.
Qed.

(** X5: in every run the number of transfers requested is at most the
    number of destinations times the send bound, and a run that returns
    requested at least one transfer for every destination. *)
Theorem transfers_per_run_bounded :
  forall gw env args mn dests w,
    exists r w',
      main gw env args mn dests w = Some (r, w') /\
      (n_transfer w' <=
       n_transfer w +
       List.length dests *
       Z.to_nat (attempt_bound (SEND_RETRY_ATTEMPTS env)))%nat /\
      (r = Returned tt ->
       (n_transfer w + List.length dests <= n_transfer w')%nat).
Proof.
  intros gw env args mn dests w.
  destruct (main_total gw env args mn dests w) as (r & w' & Hrun).
  exists r, w'. split; [exact Hrun|].
  destruct (resolve gw env args mn w) as [[[[j [wal st]]|e] w1]|] eqn:E.
  - rewrite (main_resolved _ _ _ _ _ _ _ _ _ _ E) in Hrun.
    apply resolve_steps, resolving_transfers in E.
    destruct E as (_ & _ & _ & Hn).
    destruct (String.eqb st WalletState.active).
    + apply send_all_transfers in Hrun. rewrite Hn in Hrun. exact Hrun.
    + inversion Hrun; subst. cbn. split; [lia | discriminate].
  - rewrite (main_not_resolved _ _ _ _ _ _ _ _ E) in Hrun.
    inversion Hrun; subst.
    apply resolve_steps, resolving_transfers in E.
    destruct E as (_ & _ & _ & Hn). split; [lia | discriminate].
  - unfold main, bind in Hrun. rewrite E in Hrun. discriminate.
Qed.

(** X6: one call of [send_jetton] requests the transfer for its own
    destination, with its own arguments, at least once and at most
    [max 1 SEND_RETRY_ATTEMPTS] times, and requests no other transfer. *)
Theorem send_requests_within_bound :
  forall gw env wallet jetton amount fee sleep_seconds d w,
    exists r w' evs k,
      send_jetton gw env wallet d jetton amount fee sleep_seconds w =
        Some (r, w') /\
      events w' = (evs ++ events w)%list /\
      (1 <= k)%nat /\
      Z.of_nat k <= attempt_bound (SEND_RETRY_ATTEMPTS env) /\
      transfer_requests evs =
        repeat (request_for wallet jetton amount fee d) k /\
      n_transfer w' = (n_transfer w + k)%nat.
Proof.
  intros gw env wallet jetton amount fee sleep_seconds d w.
  pose proof (send_from_total gw env wallet jetton amount fee sleep_seconds
                d 1 w) as Ht.
  rewrite <- send_is_send_from in Ht.
  destruct (send_jetton gw env wallet d jetton amount fee sleep_seconds w)
    as [[r w']|] eqn:E; [|congruence].
  pose proof (send_requested _ _ _ _ _ _ _ _ _ _ _ E)
    as (evs & k & Hg & Hk & Hq & Hn).
  pose proof (send_transfers_within _ _ _ _ _ _ _ _ _ _ _ E) as Hb.
  unfold transfers_within in Hb.
  exists r, w', evs, k. repeat split; auto.
  unfold attempt_bound in *. lia.
Qed.

(** X7: the jetton and the wallet are resolved once, before the loop,
    whatever the destination list: a run makes the calls of [resolve] and
    no other call of [jetton.update()] or [wallet.get_state()], that is at
    least one and at most [max 1 RETRIEVE_RETRY_ATTEMPTS] of the first and
    at most as many of the second. *)
Theorem resolution_happens_once :
  forall gw env args mn dests w,
    exists r w' r1 w1,
      main gw env args mn dests w = Some (r, w') /\
      resolve gw env args mn w = Some (r1, w1) /\
      n_update w' = n_update w1 /\
      n_get_state w' = n_get_state w1 /\
      filter is_update (events w') = filter is_update (events w1) /\
      filter is_get_state (events w') = filter is_get_state (events w1) /\
      (n_update w < n_update w1 <=
       n_update w +
       Z.to_nat (attempt_bound (RETRIEVE_RETRY_ATTEMPTS env)))%nat /\
      (n_get_state w1 <=
       n_get_state w +
       Z.to_nat (attempt_bound (RETRIEVE_RETRY_ATTEMPTS env)))%nat.
Proof.
  intros gw env args mn dests w.
  destruct (main_total gw env args mn dests w) as (r & w' & Hrun).
  pose proof (resolve_total gw env args mn w) as Hr.
  destruct (resolve gw env args mn w) as [[r1 w1]|] eqn:E; [|congruence].
  exists r, w', r1, w1. split; [exact Hrun|]. split; [reflexivity|].
  pose proof (resolve_calls _ _ _ _ _ _ _ E) as [Hu Hg].
  assert (resolution_untouched w1 w') as (A & B & C & D).
  { destruct r1 as [[j [wal st]]|e].
    - rewrite (main_resolved _ _ _ _ _ _ _ _ _ _ E) in Hrun.
      destruct (String.eqb st WalletState.active).
      + eapply send_all_resolution_untouched; eauto.
      + inversion Hrun; subst. repeat split.
    - rewrite (main_not_resolved _ _ _ _ _ _ _ _ E) in Hrun.
      inversion Hrun; subst. repeat split. }
  repeat split; auto; lia.
Qed.

(** X8: the jetton is resolved before the wallet: when every attempt to
    fetch the jetton fails with a [TonCenterClientError], the run ends with
    exit status 3 after exactly [max 1 RETRIEVE_RETRY_ATTEMPTS] calls of
    [jetton.update()] and without any call of [wallet.get_state()]. *)
Theorem jetton_exhaustion_skips_wallet :
  forall gw env args mn dests w,
    jetton_unavailable gw env (jetton_address args) (n_update w) ->
    exists w',
      main gw env args mn dests w = Some (Raised (SystemExit 3), w') /\
      n_update w' =
        (n_update w +
         Z.to_nat (attempt_bound (RETRIEVE_RETRY_ATTEMPTS env)))%nat /\
      n_get_state w' = n_get_state w /\
      n_transfer w' = n_transfer w.
Proof.
  intros gw env args mn dests w Hf.
  set (k := Z.to_nat (attempt_bound (RETRIEVE_RETRY_ATTEMPTS env) - 1)).
  assert (Z.of_nat k < attempt_bound (RETRIEVE_RETRY_ATTEMPTS env)) as Hk.
  { unfold k, attempt_bound. lia. }
  destruct (get_jetton_after_faults gw env (jetton_address args) k w)
    as (wk & Hrun & Hn & [Hres Hs]); [|exact Hk|].
  { intros i Hi. apply Hf. lia. }
  destruct (Hf k Hk) as (e & He & Ht). rewrite <- Hn in He.
  assert (get_jetton_fn gw (jetton_address args) wk =
          Some (Raised e,
                mkWorld (CallJettonUpdate (jetton_address args) :: events wk)
                  (S (n_update wk)) (n_get_state wk) (n_transfer wk))) as Hfn.
  { unfold get_jetton_fn, bind, Jetton_update. cbn. now rewrite He. }
  assert (get_jetton gw env (jetton_address args) w =
          Some (Raised e,
                emit (LogInfo (FinishedCall (1 + Z.of_nat k)))
                  (mkWorld
                     (CallJettonUpdate (jetton_address args) :: events wk)
                     (S (n_update wk)) (n_get_state wk) (n_transfer wk))))
    as Hj.
  { rewrite Hrun.
    change (Raised e) with (@Raised Jetton (exhausted_error true e)).
    apply retry_from_exhausted; auto. unfold k, attempt_bound. lia. }
  eexists. split.
  - apply main_not_resolved. eapply resolve_jetton_raised; eauto.
  - cbn. apply resolving_transfers in Hres. destruct Hres as (_ & _ & _ & Hx).
    repeat split; auto. rewrite Hn. unfold k, attempt_bound. lia.
Qed.

Lemma jetton_exhaustion_skips_wallet_witness :
  exists w',
    main Examples.gw_no_jetton Examples.env Examples.args Examples.words
      ["EQa"] world0 = Some (Raised (SystemExit 3), w') /\
    n_update w' = (0 + Z.to_nat (attempt_bound 5))%nat /\
    n_get_state w' = 0%nat /\
    n_transfer w' = 0%nat.
Proof.
  apply (jetton_exhaustion_skips_wallet Examples.gw_no_jetton Examples.env
           Examples.args Examples.words ["EQa"] world0).
  intros i _. exists Examples.rate_limited. split; reflexivity.
Defined.

(** ** Faults that pass *)

(** X9: resolution survives faults below the bound.  When the jetton is
    fetched after [k1] calls that failed with a [TonCenterClientError] and
    the wallet state after [k2] such calls, both fewer than the retrieve
    bound, [resolve] returns the jetton with the address asked for, the
    wallet of the mnemonic and the state of the call that succeeded, after
    exactly [k1 + 1] and [k2 + 1] calls and without a transfer. *)
Theorem resolution_succeeds_after_faults :
  forall gw env args mn w k1 k2 data state,
    jetton_faults gw (jetton_address args) (n_update w) k1 ->
    Z.of_nat k1 < attempt_bound (RETRIEVE_RETRY_ATTEMPTS env) ->
    jetton_update gw (n_update w + k1) (jetton_address args) = Reply data ->
    wallet_faults gw (mkWallet mn (source_wallet_version args))
      (n_get_state w) k2 ->
    Z.of_nat k2 < attempt_bound (RETRIEVE_RETRY_ATTEMPTS env) ->
    wallet_get_state gw (n_get_state w + k2)
      (mkWallet mn (source_wallet_version args)) = Reply state ->
    exists w1,
      resolve gw env args mn w =
        Some (Returned (mkJetton (jetton_address args) (Some data),
                        (mkWallet mn (source_wallet_version args), state)),
              w1) /\
      n_update w1 = (n_update w + k1 + 1)%nat /\
      n_get_state w1 = (n_get_state w + k2 + 1)%nat /\
      n_transfer w1 = n_transfer w.
Proof.
  intros gw env args mn w k1 k2 data state Hj Hk1 Hd Hw Hk2 Hs.
  destruct (get_jetton_after_faults gw env _ k1 w Hj Hk1)
    as (wj & Hrunj & Hnj & [_ Hsj]).
  rewrite <- Hnj in Hd.
  assert (get_jetton gw env (jetton_address args) w =
          Some (Returned (mkJetton (jetton_address args) (Some data)),
                emit (LogInfo (JettonInfo
                                 (mkJetton (jetton_address args) (Some data))))
                  (mkWorld
                     (CallJettonUpdate (jetton_address args) :: events wj)
                     (S (n_update wj)) (n_get_state wj) (n_transfer wj))))
    as Ej.
  { rewrite Hrunj. apply retry_from_returned.
    unfold get_jetton_fn, bind, Jetton_update. cbn. now rewrite Hd. }
  set (w0 := emit (LogInfo (JettonInfo
                              (mkJetton (jetton_address args) (Some data))))
               (mkWorld (CallJettonUpdate (jetton_address args) :: events wj)
                  (S (n_update wj)) (n_get_state wj) (n_transfer wj))) in *.
  assert (n_get_state w0 = n_get_state w) as H0 by exact Hsj.
  rewrite <- H0 in Hw, Hs.
  destruct (get_wallet_after_faults gw env mn (source_wallet_version args)
              k2 w0 Hw Hk2) as (ww & Hrunw & Hnw & [_ Huw]).
  rewrite <- Hnw in Hs.
  assert (get_wallet gw env mn (source_wallet_version args) w0 =
          Some (Returned (mkWallet mn (source_wallet_version args), state),
                emit (LogInfo (SourceWalletState state))
                  (mkWorld
                     (CallGetState (mkWallet mn (source_wallet_version args))
                      :: events ww)
                     (n_update ww) (S (n_get_state ww)) (n_transfer ww))))
    as Ew.
  { rewrite Hrunw. apply retry_from_returned.
    unfold get_wallet_fn, bind, Wallet_get_state. cbn. now rewrite Hs. }
  eexists. split.
  - unfold resolve, try_except, bind. rewrite Ej, Ew. reflexivity.
  - assert (resolve gw env args mn w =
            Some (Returned (mkJetton (jetton_address args) (Some data),
                            (mkWallet mn (source_wallet_version args), state)),
                  emit (LogInfo (SourceWalletState state))
                    (mkWorld
                       (CallGetState
                          (mkWallet mn (source_wallet_version args))
                        :: events ww)
                       (n_update ww) (S (n_get_state ww)) (n_transfer ww))))
      as Hres.
    { unfold resolve, try_except, bind. rewrite Ej, Ew. reflexivity. }
    apply resolve_steps, resolving_transfers in Hres.
    destruct Hres as (_ & _ & _ & Hn). cbn in *.
    repeat split; [rewrite Huw; cbn; lia | lia | exact Hn].
Qed.

Lemma resolution_succeeds_after_faults_witness :
  exists w1,
    resolve SetupExamples.gw_slow_jetton Examples.env Examples.args
      Examples.words world0 =
      Some (Returned (mkJetton "EQmaster" (Some "meta"),
                      (mkWallet Examples.words "v4r2", "active")), w1) /\
    n_update w1 = (0 + 2 + 1)%nat /\
    n_get_state w1 = (0 + 0 + 1)%nat /\
    n_transfer w1 = 0%nat.
Proof.
  apply (resolution_succeeds_after_faults SetupExamples.gw_slow_jetton
           Examples.env Examples.args Examples.words world0 2 0 "meta"
           "active").
  - intros i Hi. exists Examples.rate_limited.
    destruct i as [|[|i]]; [split; reflexivity | split; reflexivity | lia].
  - reflexivity.
  - reflexivity.
  - intros i Hi. lia.
  - reflexivity.
  - reflexivity.
Defined.

(** X10: exit status 3 is for [TonCenterClientError] only.  An error of
    another class raised while the jetton is fetched, at the first attempt
    or after retried faults, is not retried and not turned into [exit(3)]:
    it leaves [main] as it is, and neither the wallet state is fetched nor
    a transfer requested. *)
Theorem resolution_other_error_propagates :
  forall gw env args mn dests w k e,
    jetton_faults gw (jetton_address args) (n_update w) k ->
    Z.of_nat k < attempt_bound (RETRIEVE_RETRY_ATTEMPTS env) ->
    jetton_update gw (n_update w + k) (jetton_address args) = Fault e ->
    isinstance e TonCenterClientError = false ->
    exists w',
      main gw env args mn dests w = Some (Raised e, w') /\
      n_update w' = (n_update w + k + 1)%nat /\
      n_get_state w' = n_get_state w /\
      n_transfer w' = n_transfer w.
Proof.
  intros gw env args mn dests w k e Hj Hk He Hc.
  destruct (get_jetton_after_faults gw env _ k w Hj Hk)
    as (wj & Hrun & Hn & [Hres Hs]).
  rewrite <- Hn in He.
  assert (get_jetton gw env (jetton_address args) w =
          Some (Raised e,
                mkWorld (CallJettonUpdate (jetton_address args) :: events wj)
                  (S (n_update wj)) (n_get_state wj) (n_transfer wj))) as Ej.
  { rewrite Hrun. apply retry_from_rejected; [|exact Hc].
    unfold get_jetton_fn, bind, Jetton_update. cbn. now rewrite He. }
  eexists. split.
  - apply main_not_resolved. unfold resolve, try_except, bind.
    rewrite Ej, Hc. reflexivity.
  - cbn. apply resolving_transfers in Hres.
    destruct Hres as (_ & _ & _ & Hx). repeat split; auto. lia.
Qed.

Lemma resolution_other_error_propagates_witness :
  exists w',
    main SetupExamples.gw_broken_jetton Examples.env Examples.args
      Examples.words ["EQa"] world0 = Some (Raised Examples.broken_pipe, w') /\
    n_update w' = (0 + 0 + 1)%nat /\
    n_get_state w' = 0%nat /\
    n_transfer w' = 0%nat.
Proof.
  apply (resolution_other_error_propagates SetupExamples.gw_broken_jetton
           Examples.env Examples.args Examples.words ["EQa"] world0 0
           Examples.broken_pipe).
  - intros i Hi. lia.
  - reflexivity.
  - reflexivity.
  - reflexivity.
Defined.

(** X11: a send survives faults below the bound.  When the transfer is
    accepted after [k] calls that failed with a retried fault, [k] fewer
    than the send bound, and [time.sleep] accepts the delay, [send_jetton]
    returns after exactly [k + 1] requests; the last three events are the
    accepted request, its record and the delay, and no other record of a
    sent transfer and no other delay was added. *)
Theorem send_succeeds_after_faults :
  forall gw env wallet jetton amount fee sleep_seconds d w k c,
    transient_faults gw wallet jetton amount fee d (n_transfer w) k ->
    Z.of_nat k < attempt_bound (SEND_RETRY_ATTEMPTS env) ->
    wallet_transfer_jetton gw (n_transfer w + k) wallet d (address jetton)
      amount fee = Reply c ->
    sleep_error gw w sleep_seconds = None ->
    exists wk w',
      send_jetton gw env wallet d jetton amount fee sleep_seconds w =
        Some (Returned tt, w') /\
      events w' =
        Sleep sleep_seconds :: LogInfo (JettonSent d c)
        :: CallTransferJetton wallet d (address jetton) amount fee
        :: events wk /\
      n_transfer w' = (n_transfer w + k + 1)%nat /\
      count is_sent w' = S (count is_sent w) /\
      count is_sleep w' = S (count is_sleep w).
Proof.
  intros gw env wallet jetton amount fee sleep_seconds d w k c Hf Hk Hc Hs.
  unfold attempt_bound in Hk.
  destruct (send_from_transient gw env wallet jetton amount fee sleep_seconds
              d k 1 w Hf ltac:(lia))
    as (wk & evs & Hrun & Hn & Hg & Hq & _).
  rewrite <- Hn in Hc.
  apply quiet_counts in Hq. destruct Hq as [Q1 Q2].
  assert (sleep_error gw wk sleep_seconds = None) as Hs'.
  { unfold sleep_error, count in *. now rewrite Hg, filter_app, Q1. }
  pose proof (send_fn_sent gw wallet jetton amount fee sleep_seconds d wk c
                Hc Hs') as Hfn.
  exists wk. eexists. split.
  - rewrite send_is_send_from, Hrun. apply retry_from_returned. exact Hfn.
  - unfold count. cbn. rewrite Hg, !filter_app, Q1, Q2, Hn.
    repeat split; auto. lia.
Qed.

Lemma send_succeeds_after_faults_witness :
  exists wk w',
    send_jetton SetupExamples.gw_limited_once Examples.env Examples.wallet
      "EQa" Examples.jetton 10 0.5%float 60 Examples.resolved =
      Some (Returned tt, w') /\
    events w' =
      Sleep 60 :: LogInfo (JettonSent "EQa" 200)
      :: CallTransferJetton Examples.wallet "EQa" "EQmaster" 10 0.5%float
      :: events wk /\
    n_transfer w' = (0 + 1 + 1)%nat /\
    count is_sent w' = S (count is_sent Examples.resolved) /\
    count is_sleep w' = S (count is_sleep Examples.resolved).
Proof.
  apply (send_succeeds_after_faults SetupExamples.gw_limited_once Examples.env
           Examples.wallet Examples.jetton 10 0.5%float 60 "EQa"
           Examples.resolved 1 200).
  - intros i Hi. exists Examples.rate_limited.
    assert (i = 0%nat) as -> by lia. split; reflexivity.
  - reflexivity.
  - reflexivity.
  - reflexivity.
Defined.

(** X12: a [--jetton-send-sleep] that [time.sleep] refuses outright (a
    negative one with a [ValueError], one beyond 9223372036 seconds in
    either direction with an [OverflowError]) aborts the run after the
    first transfer the gateway accepts.  The error is raised inside the
    [try] of [send_jetton], after the transfer was requested and recorded
    as sent; it is logged, re-raised, not retried, and leaves [main] with
    exit status 1. *)
Theorem negative_sleep_aborts_after_transfer :
  forall gw env args mn pre d post w jetton wallet w1 w2 k c exc,
    resolve gw env args mn w =
      Some (Returned (jetton, (wallet, WalletState.active)), w1) ->
    send_all gw env args wallet jetton pre w1 = Some (Returned tt, w2) ->
    refused_length (jetton_send_sleep args) = Some exc ->
    transient_faults gw wallet jetton (jetton_send_amount args)
      (jetton_send_fee args) d (n_transfer w2) k ->
    Z.of_nat k < attempt_bound (SEND_RETRY_ATTEMPTS env) ->
    wallet_transfer_jetton gw (n_transfer w2 + k) wallet d (address jetton)
      (jetton_send_amount args) (jetton_send_fee args) = Reply c ->
    (jetton_send_sleep args < 0 ->
     - sleep_limit <= jetton_send_sleep args ->
     exc = ValueError "sleep length must be non-negative") /\
    exists wk w',
      main gw env args mn (pre ++ d :: post) w = Some (Raised exc, w') /\
      events w' =
        LogError (CannotSend d exc) :: LogInfo (JettonSent d c)
        :: CallTransferJetton wallet d (address jetton)
             (jetton_send_amount args) (jetton_send_fee args)
        :: events wk /\
      n_transfer w' = (n_transfer w2 + k + 1)%nat /\
      run_status (main gw env args mn (pre ++ d :: post) w) = Some 1.
Proof.
  intros gw env args mn pre d post w jetton wallet w1 w2 k c exc
    H Hpre Hs Hf Hk Hc.
  split.
  { intros Hneg Hlim. unfold refused_length in Hs.
    replace ((jetton_send_sleep args <? - sleep_limit) ||
             (sleep_limit <? jetton_send_sleep args)) with false in Hs.
    - apply Z.ltb_lt in Hneg. rewrite Hneg in Hs. now inversion Hs.
    - symmetry. apply orb_false_iff. unfold sleep_limit in *.
      split; [apply Z.ltb_ge | apply Z.ltb_ge]; lia. }
  unfold attempt_bound in Hk.
  destruct (send_from_transient gw env wallet jetton _ _
              (jetton_send_sleep args) d k 1 w2 Hf ltac:(lia))
    as (wk & evs & Hrun & Hn & _).
  rewrite <- Hn in Hc.
  assert (sleep_error gw wk (jetton_send_sleep args) = Some exc) as Hs'.
  { unfold sleep_error. now rewrite Hs. }
  pose proof (send_fn_sleep_refused gw wallet jetton _ _ _ d wk c exc Hc Hs')
    as Hfn.
  destruct (sleep_error_class _ _ _ _ Hs') as [Hg Ht].
  assert (main gw env args mn (pre ++ d :: post) w =
          Some (Raised exc,
                emit (LogError (CannotSend d exc))
                  (emit (LogInfo (JettonSent d c))
                     (transfer_called wallet d (address jetton)
                        (jetton_send_amount args) (jetton_send_fee args) wk))))
    as Hm.
  { rewrite (main_at_position _ _ _ _ _ _ _ _ _ _ _ H Hpre).
    apply send_all_raised. rewrite send_is_send_from, Hrun.
    apply retry_from_rejected; [exact Hfn | exact Ht]. }
  exists wk. eexists. split; [exact Hm|].
  rewrite Hm. cbn. repeat split; [lia|].
  unfold refused_length in Hs.
  destruct ((jetton_send_sleep args <? - sleep_limit) ||
            (sleep_limit <? jetton_send_sleep args)).
  - inversion Hs. reflexivity.
  - destruct (jetton_send_sleep args <? 0); [|discriminate].
    inversion Hs. reflexivity.
Qed.

Lemma negative_sleep_aborts_after_transfer_witness :
  let exc := ValueError "sleep length must be non-negative" in
  (-1 < 0 -> - sleep_limit <= -1 ->
   exc = ValueError "sleep length must be non-negative") /\
  exists wk w',
    main Examples.gw_ok Examples.env SetupExamples.args_negative_sleep
      Examples.words ([] ++ "EQa" :: ["EQb"]) world0 = Some (Raised exc, w') /\
    events w' =
      LogError (CannotSend "EQa" exc) :: LogInfo (JettonSent "EQa" 200)
      :: CallTransferJetton Examples.wallet "EQa" "EQmaster" 10 0.5%float
      :: events wk /\
    n_transfer w' = (0 + 0 + 1)%nat /\
    run_status
      (main Examples.gw_ok Examples.env SetupExamples.args_negative_sleep
         Examples.words ([] ++ "EQa" :: ["EQb"]) world0) = Some 1.
Proof.
  apply (negative_sleep_aborts_after_transfer Examples.gw_ok Examples.env
           SetupExamples.args_negative_sleep Examples.words [] "EQa" ["EQb"]
           world0 Examples.jetton Examples.wallet Examples.resolved
           Examples.resolved 0 200).
  - vm_compute. reflexivity.
  - reflexivity.
  - reflexivity.
  - intros i Hi. lia.
  - reflexivity.
  - reflexivity.
Defined.

(** ** What is transferred *)

Lemma resolve_identity gw env args mn w jetton wallet state w1 :
  resolve gw env args mn w = Some (Returned (jetton, (wallet, state)), w1) ->
  address jetton = jetton_address args /\
  wallet = mkWallet mn (source_wallet_version args).
Proof.
  intros H. unfold resolve, try_except, bind in H.
  destruct (get_jetton gw env (jetton_address args) w)
    as [[[j|e] w0]|] eqn:Ej; try discriminate.
  - destruct (get_wallet gw env mn (source_wallet_version args) w0)
      as [[[ws|e] w2]|] eqn:Ew; try discriminate.
    + inversion H; subst. apply get_jetton_address in Ej.
      apply get_wallet_wallet in Ew. auto.
    + destruct (isinstance e TonCenterClientError); discriminate.
  - destruct (isinstance e TonCenterClientError); discriminate.
Qed.

Lemma blocks_In wallet jetton amount fee dests :
  forall ks,
    Forall (fun q => exists d,
              In d dests /\ q = request_for wallet jetton amount fee d)
      (blocks wallet jetton amount fee dests ks).
Proof.
  unfold blocks. induction dests as [|d rest IH]; intros ks; [constructor|].
  destruct ks as [|k ks]; [constructor|].
  cbn [combine flat_map fst snd]. apply Forall_app. split.
  - apply Forall_forall. intros q Hq. apply repeat_spec in Hq.
    exists d. split; [now left | exact Hq].
  - eapply Forall_impl; [|apply IH].
    intros q (x & Hx & Hq). exists x. split; [now right | exact Hq].
Qed.

Lemma transfer_requests_none evs :
  forallb not_sending evs = true -> transfer_requests evs = [].
Proof.
  induction evs as [|ev evs IH]; [reflexivity|].
  cbn [forallb]. intros H. apply andb_true_iff in H. destruct H as [Hev H].
  change (ev :: evs) with ([ev] ++ evs)%list.
  rewrite transfer_requests_app, (IH H), app_nil_r.
  unfold not_sending in Hev. apply andb_true_iff in Hev.
  destruct Hev as [Hev _]. apply andb_true_iff in Hev. destruct Hev as [Hev _].
  destruct ev; try reflexivity. discriminate.
Qed.

(** X13: whatever the gateway answers, every transfer a run requests is
    a transfer to one of the destinations of the list, from the wallet of
    the mnemonic and the wallet version given, of the jetton address given,
    with the amount and the fee given. *)
Theorem every_transfer_is_as_configured :
  forall gw env args mn dests w,
    exists r w' evs,
      main gw env args mn dests w = Some (r, w') /\
      events w' = (evs ++ events w)%list /\
      Forall (fun q => exists d,
                In d dests /\
                q = (mkWallet mn (source_wallet_version args), d,
                     jetton_address args, jetton_send_amount args,
                     jetton_send_fee args))
        (transfer_requests evs).
Proof.
  intros gw env args mn dests w.
  destruct (main_total gw env args mn dests w) as (r & w' & Hrun).
  exists r, w'.
  destruct (resolve gw env args mn w) as [[[[j [wal st]]|e] w1]|] eqn:E.
  - pose proof (resolve_identity _ _ _ _ _ _ _ _ _ E) as [Ha Hw].
    pose proof (resolve_steps _ _ _ _ _ _ _ E) as [(evs1 & Hg1 & Hq1) _].
    apply transfer_requests_none in Hq1.
    pose proof Hrun as Hloop.
    rewrite (main_resolved _ _ _ _ _ _ _ _ _ _ E) in Hloop.
    destruct (String.eqb st WalletState.active).
    + apply send_all_blocks in Hloop.
      destruct Hloop as (ks & evs2 & Hg2 & _ & _ & Hq2 & _).
      exists (evs2 ++ evs1)%list. split; [exact Hrun|]. split.
      * unfold grows in *. now rewrite Hg2, Hg1, app_assoc.
      * rewrite transfer_requests_app, Hq1, app_nil_r.
        rewrite <- (rev_involutive (transfer_requests evs2)).
        rewrite <- transfer_requests_rev, Hq2.
        apply Forall_rev. unfold request_for in *. rewrite <- Ha, <- Hw.
        apply blocks_In.
    + inversion Hloop as [[Hr Hw']]. rewrite Hr, Hw' in *.
      exists ([LogError (SourceWalletNotActive wal)] ++ evs1)%list.
      split; [exact Hrun|]. split.
      * unfold grows in *. rewrite <- Hw'. cbn. now rewrite Hg1.
      * rewrite transfer_requests_app, Hq1. constructor.
  - pose proof (resolve_steps _ _ _ _ _ _ _ E) as [(evs1 & Hg1 & Hq1) _].
    apply transfer_requests_none in Hq1.
    pose proof Hrun as Hloop.
    rewrite (main_not_resolved _ _ _ _ _ _ _ _ E) in Hloop.
    inversion Hloop; subst. exists evs1. split; [exact Hrun|].
    split; [exact Hg1|]. rewrite Hq1. constructor.
  - unfold main, bind in Hrun. rewrite E in Hrun. discriminate.
Qed.
